(** * audio_file_player: the playback supervisor and the volume control

    A shallow embedding of [scripts/play_file_server.py]: the [ShellCmd]
    process handle, the [VolumeListener] subscription gate and the
    [AudioFilePlayer] node (topic and action callbacks, volume get/set).

    Conventions of the model.
    - Text is [string], read as a sequence of code points below 256; the
      builtins [str.replace], [str.index], slicing, [str.strip], [int] and
      [str] follow CPython 3 on such text.
    - A Python exception is a [Raise] result; the state reached when it was
      raised is kept.
    - The operating system is a table of the processes started for
      playing, indexed by pid.  A child is the process of the [Popen]
      object: the shell that runs the player command, leader of its own
      process group.  It is running, has ended without having been waited
      for, or has been reaped.  Children end when their group receives
      SIGTERM, with a status chosen by the environment ([term_status]);
      whether the group of a reaped child still has a member is chosen by
      the environment too ([group_left]).  The children of the volume
      commands appear through the text they print.
    - The methods of a handle and the callbacks other than [as_cb] are
      atomic; [as_cb] is interleaved statement by statement with the moves
      of the environment.
    - [time.time()] is an integer count of clock units.
    - rospy and actionlib are the environment: the action server is a
      preempt flag and the log of the calls made to it, a [rospy.Timer] is
      an entry in the list of live timers from its construction to its
      [shutdown()]. *)

From Stdlib Require Import ZArith String Ascii List Lia Bool DecimalString
  Sorted.
From stdpp Require Import base list.
Import ListNotations.
Open Scope string_scope.
Open Scope Z_scope.

(** ** Python builtins on text *)

Module PyStr.

(** [s.replace(c, '')] for a one-character [c]. *)
Fixpoint remove_char (c : ascii) (s : string) : string :=
  match s with
  | EmptyString => EmptyString
  | String a r =>
      if Ascii.eqb a c then remove_char c r else String a (remove_char c r)
  end.

(** [s.index(c)]: position of the first [c]; [None] stands for the
    [ValueError] raised when there is none. *)
Fixpoint index (c : ascii) (s : string) : option nat :=
  match s with
  | EmptyString => None
  | String a r =>
      if Ascii.eqb a c then Some 0%nat else option_map S (index c r)
  end.

(** Bound of a slice: a negative bound counts from the end, and every
    bound is clipped to [0, len]. *)
Definition slice_bound (len i : Z) : Z :=
  if i <? 0 then Z.max 0 (i + len) else Z.min i len.

(** [s[i:j]]. *)
Definition slice (s : string) (i j : Z) : string :=
  let len := Z.of_nat (String.length s) in
  let a := slice_bound len i in
  let b := slice_bound len j in
  substring (Z.to_nat a) (Z.to_nat (b - a)) s.

(** [c.isspace()] on code points below 256: TAB, LF, VT, FF, CR, FS, GS,
    RS, US, SPACE, NEL (133) and NO-BREAK SPACE (160). *)
Definition is_space (a : ascii) : bool :=
  let n := nat_of_ascii a in
  ((9 <=? n) && (n <=? 13) || (28 <=? n) && (n <=? 32)
   || (n =? 133) || (n =? 160))%nat.

Fixpoint lstrip (s : string) : string :=
  match s with
  | EmptyString => EmptyString
  | String a r => if is_space a then lstrip r else s
  end.

Definition rev (s : string) : string :=
  string_of_list_ascii (List.rev (list_ascii_of_string s)).

Definition rstrip (s : string) : string := rev (lstrip (rev s)).

(** [s.strip()]. *)
Definition strip (s : string) : string := rstrip (lstrip s).

Definition is_digit (a : ascii) : bool :=
  let n := nat_of_ascii a in ((48 <=? n) && (n <=? 57))%nat.

Definition digit_value (a : ascii) : Z := Z.of_nat (nat_of_ascii a) - 48.

(** Digits of an integer literal, with single underscores allowed
    between digits.  [seen] tells whether the previous character was a
    digit. *)
Fixpoint digits (acc : Z) (seen : bool) (s : string) : option Z :=
  match s with
  | EmptyString => if seen then Some acc else None
  | String a r =>
      if is_digit a then digits (10 * acc + digit_value a) true r
      else if Ascii.eqb a "_" && seen then digits acc false r
      else None
  end.

(** [int(s)]: surrounding whitespace, an optional sign, digits; [None]
    stands for [ValueError]. *)
Definition int (s : string) : option Z :=
  match strip s with
  | String "+" r => digits 0 false r
  | String "-" r => option_map Z.opp (digits 0 false r)
  | t => digits 0 false t
  end.

(** [str(z)] for an integer. *)
Definition str (z : Z) : string := NilZero.string_of_int (Z.to_int z).

(** Number of characters of [s] satisfying [p]. *)
Fixpoint count (p : ascii -> bool) (s : string) : nat :=
  match s with
  | EmptyString => 0%nat
  | String a r => ((if p a then 1 else 0) + count p r)%nat
  end.

(** Every character of [s] satisfies [p]. *)
Fixpoint all (p : ascii -> bool) (s : string) : bool :=
  match s with
  | EmptyString => true
  | String a r => p a && all p r
  end.

(** The padding [get_current_volume] removes: an opening bracket or
    whitespace. *)
Definition is_pad (a : ascii) : bool := Ascii.eqb a "[" || is_space a.

(** A character that [get_current_volume] drops from the slice or that
    [int] accepts in a literal: a digit, an opening bracket, whitespace, a
    sign or an underscore. *)
Definition readable (a : ascii) : bool :=
  is_digit a || Ascii.eqb a "[" || is_space a
  || Ascii.eqb a "+" || Ascii.eqb a "-" || Ascii.eqb a "_".

(** [c in s]. *)
Definition contains (c : ascii) (s : string) : bool :=
  match index c s with Some _ => true | None => false end.

(** The double quote character. *)
Definition dquote : ascii := "034".

Definition is_quote (a : ascii) : bool :=
  Ascii.eqb a "'" || Ascii.eqb a dquote.

(** Check of one number [k]: its decimal text has no percent sign and no
    bracket, is left alone by [strip], and is read back by [int]. *)
Definition decimal_ok (k : nat) : bool :=
  let n := Z.of_nat k in
  let t := str n in
  negb (contains "%" t) && String.eqb (remove_char "[" t) t
  && String.eqb (strip t) t
  && match int t with Some v => v =? n | None => false end.

End PyStr.

(** ** Exceptions *)

Inductive exn := ValueError | OSError | SerializationError.

Inductive result (A : Type) :=
| Ok (a : A)
| Raise (e : exn).
Arguments Ok {A} a.
Arguments Raise {A} e.

(** ** Child processes and the [ShellCmd] handle *)

Module Proc.

(** State of a child in the operating system. *)
Inductive pstate :=
| Running
| Exited (code : Z)      (* ended, not waited for yet *)
| Reaped (code : Z).     (* ended and waited for *)

Record OS := mkOS {
  procs : list pstate;          (* the player children, by pid *)
  term_status : nat -> Z;       (* status a child ends with on SIGTERM *)
  stdout_of : nat -> string;    (* text captured in [outf] *)
  stderr_of : nat -> string;    (* text captured in [errf] *)
  clock : Z;                    (* what [time.time()] reads *)
  is_shutdown : bool;           (* [rospy.is_shutdown()] *)
  group_left : nat -> bool      (* the group of a reaped child has a member *)
}.

Definition set_procs (f : list pstate -> list pstate) (o : OS) : OS :=
  mkOS (f (procs o)) (term_status o) (stdout_of o) (stderr_of o)
       (clock o) (is_shutdown o) (group_left o).

Definition set_clock (t : Z) (o : OS) : OS :=
  mkOS (procs o) (term_status o) (stdout_of o) (stderr_of o) t
       (is_shutdown o) (group_left o).

Definition set_shutdown (o : OS) : OS :=
  mkOS (procs o) (term_status o) (stdout_of o) (stderr_of o) (clock o) true
       (group_left o).


Definition is_running (s : pstate) : bool :=
  match s with Running => true | _ => false end.

(** Number of children alive. *)
Definition alive (o : OS) : nat := List.length (List.filter is_running (procs o)).

(** The child [p] ends on its own with status [c]. *)
Definition proc_exit (p : nat) (c : Z) (o : OS) : OS :=
  match procs o !! p with
  | Some Running => set_procs (<[p := Exited c]>) o
  | _ => o
  end.

(** [Popen.poll()]: [None] while the child runs; a child that has ended
    is reaped and its status returned. *)
Definition poll (p : nat) (o : OS) : option Z * OS :=
  match procs o !! p with
  | Some (Exited c) => (Some c, set_procs (<[p := Reaped c]>) o)
  | Some (Reaped c) => (Some c, o)
  | Some Running | None => (None, o)
  end.

(** The handle: [cmd] is the command line given to the shell, [process]
    the pid of the [Popen] object. *)
Record ShellCmd := mkShellCmd {
  cmd : string;
  retcode : option Z;
  process : nat
}.

Definition set_retcode (r : option Z) (h : ShellCmd) : ShellCmd :=
  mkShellCmd (cmd h) r (process h).

(** [ShellCmd(cmd)]: the child gets the next pid and runs. *)
Definition spawn (c : string) (o : OS) : ShellCmd * OS :=
  (mkShellCmd c None (List.length (procs o)),
   set_procs (fun ps => (ps ++ [Running])%list) o).

Definition get_retcode (h : ShellCmd) (o : OS) : option Z * ShellCmd * OS :=
  match retcode h with
  | None => let '(r, o') := poll (process h) o in (r, set_retcode r h, o')
  | Some c => (Some c, h, o)
  end.

Definition is_done (h : ShellCmd) (o : OS) : bool * ShellCmd * OS :=
  let '(r, h', o') := get_retcode h o in
  (match r with Some _ => true | None => false end, h', o').

Definition is_succeeded (h : ShellCmd) (o : OS) : bool * ShellCmd * OS :=
  let '(r, h', o') := get_retcode h o in
  (match r with Some c => c =? 0 | None => false end, h', o').

(** [kill()]: the retcode is set first; [os.killpg] ends a running group
    and is accepted by a child not reaped yet, [wait()] then reaps.  For
    a child already reaped, [os.killpg] is accepted as long as the group
    has a member left, and [wait()] returns at once; it raises (no such
    process) when the whole group is gone. *)
Definition kill (h : ShellCmd) (o : OS) : result unit * ShellCmd * OS :=
  let h' := set_retcode (Some (-1)) h in
  match procs o !! process h with
  | Some Running =>
      (Ok tt, h',
       set_procs (<[process h := Reaped (term_status o (process h))]>) o)
  | Some (Exited c) =>
      (Ok tt, h', set_procs (<[process h := Reaped c]>) o)
  | Some (Reaped _) =>
      if group_left o (process h) then (Ok tt, h', o)
      else (Raise OSError, h', o)
  | None => (Raise OSError, h', o)
  end.

(** [__del__()]: an unfinished child is killed; an exception raised in
    a finalizer is dropped. *)
Definition del (h : ShellCmd) (o : OS) : OS :=
  let '(d, h', o') := is_done h o in
  if d then o' else let '(_, _, o'') := kill h' o' in o''.

Definition get_stdout (h : ShellCmd) (o : OS) : string :=
  stdout_of o (process h).

Definition get_stderr (h : ShellCmd) (o : OS) : string :=
  stderr_of o (process h).

(** The calls made on a handle, and the child ending on its own, for
    sequences of them. *)
Inductive op :=
| OpGetRetcode | OpIsDone | OpIsSucceeded | OpKill
| OpProcExit (c : Z).

Definition is_kill (x : op) : bool :=
  match x with OpKill => true | _ => false end.

Definition apply_op (ho : ShellCmd * OS) (x : op) : ShellCmd * OS :=
  let '(h, o) := ho in
  match x with
  | OpGetRetcode => let '(_, h', o') := get_retcode h o in (h', o')
  | OpIsDone => let '(_, h', o') := is_done h o in (h', o')
  | OpIsSucceeded => let '(_, h', o') := is_succeeded h o in (h', o')
  | OpKill => let '(_, h', o') := kill h o in (h', o')
  | OpProcExit c => (h, proc_exit (process h) c o)
  end.

Definition apply_ops (xs : list op) (ho : ShellCmd * OS) : ShellCmd * OS :=
  fold_left apply_op xs ho.

(** The state a handle shows through [is_done] and [is_succeeded]. *)
Inductive completion := StRunning | StSucceeded | StFailed (code : Z).

Definition completion_of (h : ShellCmd) : completion :=
  match retcode h with
  | None => StRunning
  | Some c => if c =? 0 then StSucceeded else StFailed c
  end.

End Proc.

(** ** The node: [VolumeListener] and [AudioFilePlayer] *)

Module Node.
Import PyStr Proc.

(** A terminal result handed to the action server: [set_succeeded],
    [set_aborted] and [set_preempted]. *)
Inductive outcome :=
| Succeeded (total_time : Z)
| Aborted (reason : string)
| Preempted (reason : string).

Definition is_preempted (r : outcome) : bool :=
  match r with Preempted _ => true | _ => false end.

Definition is_aborted (r : outcome) : bool :=
  match r with Aborted _ => true | _ => false end.

(** What rospy and actionlib hold.  Every timer of the node has period
    1.0 s and callback [curr_vol_cb], so a timer is its id. *)
Record Ros := mkRos {
  live_timers : list nat;       (* started and not shut down *)
  next_timer : nat;
  published : list Z;           (* messages sent on ~get_volume *)
  preempt_requested : bool;     (* [is_preempt_requested()] *)
  feedback : list Z;            (* [elapsed_played_time] of each feedback *)
  results : list outcome;       (* terminal results, in call order *)
  connected : bool              (* [volume_pub] has a connection *)
}.

Record AudioFilePlayer := mkAFP {
  command : string;
  flags : string;
  volume_set_command : string;
  current_playing_process : option ShellCmd;
  curr_vol : Z;
  volume_timer : option nat;
  timer : option nat
}.

(** [num_peers] is the attribute of the [VolumeListener], whose
    [service] is the player. *)
Record World := mkWorld {
  os : OS;
  ros : Ros;
  afp : AudioFilePlayer;
  num_peers : Z
}.

Definition set_os (o : OS) (w : World) : World :=
  mkWorld o (ros w) (afp w) (num_peers w).
Definition set_ros (r : Ros) (w : World) : World :=
  mkWorld (os w) r (afp w) (num_peers w).
Definition set_afp (a : AudioFilePlayer) (w : World) : World :=
  mkWorld (os w) (ros w) a (num_peers w).
Definition set_num_peers (n : Z) (w : World) : World :=
  mkWorld (os w) (ros w) (afp w) n.

Definition set_current (h : option ShellCmd) (a : AudioFilePlayer) :=
  mkAFP (command a) (flags a) (volume_set_command a) h (curr_vol a)
        (volume_timer a) (timer a).
Definition set_curr_vol (v : Z) (a : AudioFilePlayer) :=
  mkAFP (command a) (flags a) (volume_set_command a)
        (current_playing_process a) v (volume_timer a) (timer a).
Definition set_volume_timer (t : option nat) (a : AudioFilePlayer) :=
  mkAFP (command a) (flags a) (volume_set_command a)
        (current_playing_process a) (curr_vol a) t (timer a).
Definition set_timer (t : option nat) (a : AudioFilePlayer) :=
  mkAFP (command a) (flags a) (volume_set_command a)
        (current_playing_process a) (curr_vol a) (volume_timer a) t.

Definition set_live_timers (l : list nat) (n : nat) (r : Ros) :=
  mkRos l n (published r) (preempt_requested r) (feedback r) (results r)
        (connected r).
Definition publish (v : Z) (r : Ros) :=
  mkRos (live_timers r) (next_timer r) (published r ++ [v])%list
        (preempt_requested r) (feedback r) (results r) (connected r).
Definition set_preempt_requested (b : bool) (r : Ros) :=
  mkRos (live_timers r) (next_timer r) (published r) b (feedback r)
        (results r) (connected r).
Definition publish_feedback (e : Z) (r : Ros) :=
  mkRos (live_timers r) (next_timer r) (published r) (preempt_requested r)
        (feedback r ++ [e])%list (results r) (connected r).
Definition set_result (x : outcome) (r : Ros) :=
  mkRos (live_timers r) (next_timer r) (published r) (preempt_requested r)
        (feedback r) (results r ++ [x])%list (connected r).

(** [rospy.Timer(rospy.Duration(1.0), self.curr_vol_cb)]: the timer
    starts at once. *)
Definition new_timer (r : Ros) : nat * Ros :=
  (next_timer r,
   set_live_timers (live_timers r ++ [next_timer r])%list
                   (S (next_timer r)) r).

(** [t.shutdown()]. *)
Definition shutdown_timer (t : nat) (r : Ros) : Ros :=
  set_live_timers (List.filter (fun x => negb (Nat.eqb x t)) (live_timers r))
                  (next_timer r) r.

(** *** Volume service *)

Definition enable_volume_service (w : World) : World :=
  match volume_timer (afp w) with
  | None =>
      let '(t, r) := new_timer (ros w) in
      set_afp (set_volume_timer (Some t) (afp w)) (set_ros r w)
  | Some _ => w
  end.

Definition disable_volume_servce (w : World) : World :=
  match volume_timer (afp w) with
  | Some t =>
      set_afp (set_volume_timer None (afp w))
              (set_ros (shutdown_timer t (ros w)) w)
  | None => w
  end.

Definition peer_subscribe (w : World) : World :=
  let w1 := if num_peers w =? 0 then enable_volume_service w else w in
  set_num_peers (num_peers w1 + 1) w1.

Definition peer_unsubscribe (n : Z) (w : World) : World :=
  let w1 := set_num_peers n w in
  if n =? 0 then disable_volume_servce w1 else w1.

(** *** Volume get and set *)

(** [get_current_volume], from the text [output] that [cmd.get_stdout()]
    returns once the query command is done. *)
Definition get_current_volume (output : string) : result Z :=
  match index "%" output with
  | None => Raise ValueError
  | Some pct_idx =>
      let pct_text :=
        slice output (Z.of_nat pct_idx - 3) (Z.of_nat pct_idx) in
      let pct_text := remove_char "[" pct_text in
      let pct_text := strip pct_text in
      match int pct_text with
      | Some curr_vol => Ok curr_vol
      | None => Raise ValueError
      end
  end.

(** The values an [Int8] message can carry. *)
Definition int8 (v : Z) : bool := (-128 <=? v) && (v <=? 127).

(** [volume_pub.publish(Int8(v))]: a value that fits is sent, or kept as
    the latched message.  One that does not fit cannot be serialised:
    rospy raises when it has a connection to send to, and otherwise
    sends nothing. *)
Definition publish_volume (v : Z) (r : Ros) : result unit * Ros :=
  if int8 v then (Ok tt, publish v r)
  else if connected r then (Raise SerializationError, r)
  else (Ok tt, r).

(** One tick of a volume timer; [output] is the mixer text of this
    tick. *)
Definition curr_vol_cb (output : string) (w : World) : result unit * World :=
  match get_current_volume output with
  | Ok v =>
      let w1 := set_afp (set_curr_vol v (afp w)) w in
      let '(x, r) := publish_volume v (ros w1) in
      (x, set_ros r w1)
  | Raise e => (Raise e, w)
  end.

(** The percentage [volume_cb] applies. *)
Definition to_pct (data : Z) : Z :=
  if data >? 100 then 100 else if data <? 0 then 0 else data.

(** [volume_cb]: the command line it runs. *)
Definition volume_cb (a : AudioFilePlayer) (data : Z) : string :=
  volume_set_command a ++ " " ++ str (to_pct data) ++ "%".

(** *** Playing a file *)

Definition sanitize (audio_file_path : string) : string :=
  remove_char dquote (remove_char "'" audio_file_path).

Definition full_command (a : AudioFilePlayer) (audio_file_path : string)
  : string :=
  command a ++ " " ++ flags a ++ " '" ++ sanitize audio_file_path ++ "'".

(** [play_audio_file] up to the construction [ShellCmd(full_command)]:
    the new child runs, the attribute still holds the previous handle. *)
Definition play_spawn (audio_file_path : string) (w : World)
  : ShellCmd * World :=
  let '(h, o) := spawn (full_command (afp w) audio_file_path) (os w) in
  (h, set_os o w).

(** The rest of [play_audio_file]: the attribute is rebound, which drops
    the last reference to the previous handle and runs its [__del__];
    then a publisher is made (no effect here) and a timer is started and
    kept in [self.timer]; the timer it replaces is not shut down. *)
Definition play_bind (h : ShellCmd) (w : World) : World :=
  let o := match current_playing_process (afp w) with
           | Some old => del old (os w)
           | None => os w
           end in
  let '(t, r) := new_timer (ros w) in
  mkWorld o r (set_timer (Some t) (set_current (Some h) (afp w)))
          (num_peers w).

Definition play_audio_file (audio_file_path : string) (w : World) : World :=
  let '(h, w1) := play_spawn audio_file_path w in play_bind h w1.

(** The guard of [topic_cb]: a current process that is not done is
    killed. *)
Definition topic_cb_guard (w : World) : result unit * World :=
  match current_playing_process (afp w) with
  | Some h =>
      let '(d, h1, o1) := is_done h (os w) in
      if d then
        (Ok tt, set_afp (set_current (Some h1) (afp w)) (set_os o1 w))
      else
        let '(r, h2, o2) := kill h1 o1 in
        (r, set_afp (set_current (Some h2) (afp w)) (set_os o2 w))
  | None => (Ok tt, w)
  end.

Definition topic_cb (data : string) (w : World) : result unit * World :=
  match topic_cb_guard w with
  | (Ok _, w1) => (Ok tt, play_audio_file data w1)
  | (Raise e, w1) => (Raise e, w1)
  end.

Definition cancel_text : string := "Got a cancel request.".

Definition as_preempt_cb (w : World) : result unit * World :=
  match current_playing_process (afp w) with
  | Some h =>
      let '(r, h1, o1) := kill h (os w) in
      let w1 := set_afp (set_current (Some h1) (afp w)) (set_os o1 w) in
      match r with
      | Ok _ => (Ok tt, set_ros (set_result (Preempted cancel_text) (ros w1)) w1)
      | Raise e => (Raise e, w1)
      end
  | None => (Ok tt, w)
  end.

End Node.

(** ** One action goal: [as_cb] run statement by statement

    [as_cb] runs in the execute thread of the action server while the
    child, the clock, the shutdown flag and the cancel callback move on
    their own.  A session is the state of one call of [as_cb]: the world,
    the statement the thread is at and its local variables.  The events
    of a session are the statements of the thread and the moves of the
    environment, in any order. *)

Module Session.
Import PyStr Proc Node.

Inductive pc :=
| AsInit             (* initial_time = time.time() *)
| AsSpawn            (* play_audio_file: ShellCmd(full_command) *)
| AsBind             (* play_audio_file: the assignment and the timer *)
| AsLoop             (* the while condition *)
| AsFeedback         (* publish_feedback *)
| AsSleep            (* r.sleep() *)
| AsFinal            (* final_time = time.time() *)
| AsCheckSucceeded   (* if ...is_succeeded() *)
| AsSetSucceeded     (* set_succeeded(res) *)
| AsCheckPreempt     (* if self.afp_as.is_preempt_requested() *)
| AsSetAborted       (* set_aborted(res) *)
| AsReturn.

Record session := mkSession {
  world : World;
  at_pc : pc;
  filepath : string;                (* goal.filepath *)
  initial_time : Z;
  final_time : Z;
  spawned : option ShellCmd         (* the handle built at AsSpawn *)
}.

Definition goto (p : pc) (w : World) (s : session) : session :=
  mkSession w p (filepath s) (initial_time s) (final_time s) (spawned s).

Definition newline : string := String (ascii_of_nat 10) EmptyString.

Definition abort_reason (h : ShellCmd) (o : OS) : string :=
  "stderr: " ++ get_stderr h o ++ newline ++ "stdout: " ++ get_stdout h o.

(** The next statement of [as_cb].  A missing current process makes the
    attribute access raise, which leaves [as_cb]. *)
Definition as_cb_step (s : session) : session :=
  let w := world s in
  match at_pc s with
  | AsInit =>
      mkSession w AsSpawn (filepath s) (clock (os w)) (final_time s)
                (spawned s)
  | AsSpawn =>
      let '(h, w1) := play_spawn (filepath s) w in
      mkSession w1 AsBind (filepath s) (initial_time s) (final_time s)
                (Some h)
  | AsBind =>
      match spawned s with
      | Some h => goto AsLoop (play_bind h w) s
      | None => goto AsReturn w s
      end
  | AsLoop =>
      if is_shutdown (os w) then goto AsFinal w s
      else
        match current_playing_process (afp w) with
        | Some h =>
            let '(d, h1, o1) := is_done h (os w) in
            let w1 := set_afp (set_current (Some h1) (afp w)) (set_os o1 w) in
            if d then goto AsFinal w1 s else goto AsFeedback w1 s
        | None => goto AsReturn w s
        end
  | AsFeedback =>
      let curr_time := clock (os w) in
      goto AsSleep
           (set_ros (publish_feedback (curr_time - initial_time s) (ros w)) w)
           s
  | AsSleep => goto AsLoop w s
  | AsFinal =>
      mkSession w AsCheckSucceeded (filepath s) (initial_time s)
                (clock (os w)) (spawned s)
  | AsCheckSucceeded =>
      match current_playing_process (afp w) with
      | Some h =>
          let '(b, h1, o1) := is_succeeded h (os w) in
          let w1 := set_afp (set_current (Some h1) (afp w)) (set_os o1 w) in
          if b then goto AsSetSucceeded w1 s else goto AsCheckPreempt w1 s
      | None => goto AsReturn w s
      end
  | AsSetSucceeded =>
      goto AsReturn (set_ros (set_result (Succeeded (final_time s)) (ros w)) w) s
  | AsCheckPreempt =>
      if preempt_requested (ros w) then goto AsReturn w s
      else goto AsSetAborted w s
  | AsSetAborted =>
      match current_playing_process (afp w) with
      | Some h =>
          goto AsReturn
               (set_ros (set_result (Aborted (abort_reason h (os w))) (ros w)) w)
               s
      | None => goto AsReturn w s
      end
  | AsReturn => s
  end.

Inductive event :=
| Step                          (* the thread runs its next statement *)
| Tick (t : Z)                  (* the clock now reads [t] *)
| ProcExit (p : nat) (c : Z)    (* child [p] ends on its own, status [c] *)
| Shutdown                      (* rospy is shut down *)
| Cancel.                       (* the client cancels the goal *)

(** A cancel request: the action server raises its preempt flag, then
    calls the registered [as_preempt_cb]. *)
Definition cancel (w : World) : World :=
  snd (as_preempt_cb (set_ros (set_preempt_requested true (ros w)) w)).

Definition exec (s : session) (e : event) : session :=
  let w := world s in
  match e with
  | Step => as_cb_step s
  | Tick t => goto (at_pc s) (set_os (set_clock t (os w)) w) s
  | ProcExit p c => goto (at_pc s) (set_os (proc_exit p c (os w)) w) s
  | Shutdown => goto (at_pc s) (set_os (set_shutdown (os w)) w) s
  | Cancel => goto (at_pc s) (cancel w) s
  end.

Definition run (es : list event) (s : session) : session :=
  fold_left exec es s.

(** A goal is accepted: its preempt flag is down and nothing has been
    reported for it. *)
Definition accept (r : Ros) : Ros :=
  mkRos (live_timers r) (next_timer r) (published r) false [] []
        (connected r).

Definition session_start (goal_filepath : string) (w : World) : session :=
  mkSession (set_ros (accept (ros w)) w) AsInit goal_filepath 0 0 None.

(** The player of the session has been started and bound. *)
Definition playing (p : pc) : bool :=
  match p with AsInit | AsSpawn | AsBind | AsReturn => false | _ => true end.

(** The current process is alive in the operating system. *)
Definition current_running (w : World) : bool :=
  match current_playing_process (afp w) with
  | Some h =>
      match procs (os w) !! process h with
      | Some Running => true
      | _ => false
      end
  | None => false
  end.

(** [as_cb] has not yet made its preempt check with the flag down. *)
Definition before_abort (p : pc) : bool :=
  match p with AsSetAborted => false | _ => true end.






End Session.

(** ** Initial state of the node and sample environments *)

Module Sample.
Import Proc Node Session.

Definition os0 : OS :=
  mkOS [] (fun _ => -15) (fun _ => EmptyString) (fun _ => EmptyString) 0 false
       (fun _ => false).

Definition ros0 : Ros := mkRos [] 0 [] false [] [] false.

(** The attributes after [__init__] with the default parameters and a
    mixer at 51%. *)
Definition afp0 : AudioFilePlayer :=
  mkAFP "play" EmptyString "amixer -c 0 sset Master playback" None 51 None None.

Definition world0 : World := mkWorld os0 ros0 afp0 0.

Definition amixer_output : string :=
  "Simple mixer control 'Master',0" ++ newline ++
  "  Capabilities: pvolume pvolume-joined pswitch pswitch-joined" ++ newline ++
  "  Playback channels: Mono" ++ newline ++
  "  Limits: Playback 0 - 87" ++ newline ++
  "  Mono: Playback 44 [51%] [-32.25dB] [on]" ++ newline.

End Sample.

(** ** Invariants used in the proofs *)

Module Invariants.
Import PyStr Proc Node Session.

(** The child [p] has ended and has been waited for. *)
Definition reaped (o : OS) (p : nat) : Prop :=
  exists c, procs o !! p = Some (Reaped c).

(** The child [p] is not alive. *)
Definition stopped (o : OS) (p : nat) : Prop :=
  procs o !! p <> Some Running.

(** A handle holds a return code only for a child that is not alive. *)
Definition sound_handle (o : OS) (h : ShellCmd) : Prop :=
  retcode h <> None -> stopped o (process h).

(** What holds all along a session: before [as_cb] returns only preempted
    results have been reported; the handle built at [AsSpawn] is fresh;
    while the player is supervised the current handle is sound, and it
    holds a return code when [as_cb] is about to report a success. *)
Definition inv (s : session) : Prop :=
  (at_pc s <> AsReturn ->
   forallb is_preempted (results (ros (world s))) = true) /\
  (at_pc s = AsBind -> exists h, spawned s = Some h /\ retcode h = None) /\
  (playing (at_pc s) = true ->
   exists h, current_playing_process (afp (world s)) = Some h /\
             sound_handle (os (world s)) h /\
             (at_pc s = AsSetSucceeded -> retcode h <> None)).



(** The gate keeps its own timer exactly while it counts peers. *)
Definition gate_ok (w : World) : Prop :=
  (volume_timer (afp w) <> None <-> 0 < num_peers w) /\ 0 <= num_peers w.

(** Only the child of the current handle may be alive, and that handle
    has not seen it end. *)
Definition one_player (w : World) : Prop :=
  (forall p, procs (os w) !! p = Some Running ->
     exists h, current_playing_process (afp w) = Some h /\
               process h = p /\ retcode h = None) /\
  (forall h, current_playing_process (afp w) = Some h ->
     (process h < length (procs (os w)))%nat).

(** No child is alive. *)
Definition none_alive (o : OS) : Prop :=
  forall p, procs o !! p <> Some Running.

(** The event is a shutdown of rospy. *)
Definition is_shutdown_event (e : event) : bool :=
  match e with Shutdown => true | _ => false end.

(** [as_cb] has left its loop and not yet returned. *)
Definition past_loop (p : pc) : bool :=
  match p with
  | AsFinal | AsCheckSucceeded | AsSetSucceeded | AsCheckPreempt
  | AsSetAborted => true
  | _ => false
  end.

(** Without a shutdown the loop is left only with a handle that is done. *)
Definition left_when_done (s : session) : Prop :=
  is_shutdown (os (world s)) = false /\
  (past_loop (at_pc s) = true ->
   exists h, current_playing_process (afp (world s)) = Some h /\
             retcode h <> None).

End Invariants.

(** ** Sequences of calls and what holds along them *)

Module Sequences.
Import PyStr Proc Node Session Invariants.

(** The calls rospy makes on the listener: a peer joins, or a peer leaves
    and [n] peers remain. *)
Inductive gate_event := Join | Leave (n : Z).

Definition gate_exec (w : World) (e : gate_event) : World :=
  match e with
  | Join => peer_subscribe w
  | Leave n => peer_unsubscribe n w
  end.

Definition gate_run (es : list gate_event) (w : World) : World :=
  fold_left gate_exec es w.

(** The counts reported on leaving are sound for a listener that counts
    [count] peers: not negative and below the count before. *)
Fixpoint gate_wf (count : Z) (es : list gate_event) : bool :=
  match es with
  | [] => true
  | Join :: r => gate_wf (count + 1) r
  | Leave n :: r => (0 <=? n) && (n <? count) && gate_wf n r
  end.

(** The only live timer is the one of the gate. *)
Definition gate_timer_only (w : World) : Prop :=
  live_timers (ros w)
  = match volume_timer (afp w) with Some t => [t] | None => [] end.

(** What the play topic sees: a message, or a child ending on its own. *)
Inductive topic_event := Play (data : string) | ChildExit (p : nat) (c : Z).

Definition topic_exec (w : World) (e : topic_event) : result unit * World :=
  match e with
  | Play data => topic_cb data w
  | ChildExit p c => (Ok tt, set_os (proc_exit p c (os w)) w)
  end.

(** The callbacks run one after the other; the flag tells whether all of
    them returned without an exception. *)
Definition topic_run (es : list topic_event) (w : World) : bool * World :=
  fold_left
    (fun bw e =>
       let '(r, w') := topic_exec (snd bw) e in
       (fst bw && match r with Ok _ => true | Raise _ => false end, w'))
    es (true, w).

(** The ticks of a volume timer, one per mixer text. *)
Definition ticks (outs : list string) (w : World) : World :=
  fold_left (fun w out => snd (curr_vol_cb out w)) outs w.

(** The values read from the texts that can be read, in order. *)
Definition reads (outs : list string) : list Z :=
  flat_map (fun out => match get_current_volume out with
                       | Ok v => [v]
                       | Raise _ => []
                       end) outs.

(** The clock never goes back along [es], from the reading [c]. *)
Fixpoint clock_monotone (c : Z) (es : list event) : bool :=
  match es with
  | [] => true
  | Tick t :: r => (c <=? t) && clock_monotone t r
  | _ :: r => clock_monotone c r
  end.

(** The results reported by [as_cb] itself: successes and failures. *)
Definition own_results (r : Ros) : list outcome :=
  List.filter (fun x => negb (is_preempted x)) (results r).




(** The loop condition of [as_cb] fails from now on: rospy is shut down,
    or the current handle holds a return code or its child has ended. *)
Definition loop_over (w : World) : Prop :=
  is_shutdown (os w) = true \/
  exists h, current_playing_process (afp w) = Some h /\
    (retcode h <> None \/
     exists c, procs (os w) !! process h = Some (Exited c) \/
               procs (os w) !! process h = Some (Reaped c)).

(** What holds of the feedback sent so far: none before the start time
    is taken; afterwards each elapsed time lies between 0 and the elapsed
    time now, and they do not decrease. *)
Definition feedback_ok (s : session) : Prop :=
  match at_pc s with
  | AsInit => feedback (ros (world s)) = []
  | _ =>
      initial_time s <= clock (os (world s)) /\
      Forall (fun e => 0 <= e <= clock (os (world s)) - initial_time s)
             (feedback (ros (world s))) /\
      StronglySorted Z.le (feedback (ros (world s)))
  end.

End Sequences.

(** * Properties *)

Import PyStr Proc Node Session Sample Invariants Sequences.

(** ** Text lemmas *)


Lemma count_remove_char p c (s : string) :
  count p (remove_char c s) = count (fun a => p a && negb (Ascii.eqb a c)) s.
Proof.
  induction s as [|a s IH]; simpl; [reflexivity|].
  destruct (Ascii.eqb a c) eqn:E; simpl.
  - rewrite IH, andb_false_r. reflexivity.
  - rewrite IH, andb_true_r. reflexivity.
Qed.

Lemma count_never p (s : string) :
  (forall a, p a = false) -> count p s = 0%nat.
Proof.
  intros H. induction s as [|a s IH]; simpl; [reflexivity|].
  rewrite H, IH. reflexivity.
Qed.

Lemma sanitize_no_quote (path : string) :
  count is_quote (sanitize path) = 0%nat.
Proof.
  unfold sanitize. rewrite !count_remove_char.
  apply count_never. intros a. unfold is_quote.
  destruct (Ascii.eqb a "'"), (Ascii.eqb a dquote); reflexivity.
Qed.



(** ** C5: the command line of the player *)


(** ** C7: clamping of the volume *)

(** C7, as stated, fails on the read side: a mixer line showing 150% is
    parsed to 150 and stored as is by the tick. *)
Lemma stored_volume_not_clamped :
  let out := "  Front Left: Playback 98304 [150%] [on]" in
  get_current_volume out = Ok 150 /\
  ~ (0 <= curr_vol (afp (snd (curr_vol_cb out world0))) <= 100).
Proof. split; [reflexivity|]. vm_compute. intros [_ H]. apply H. reflexivity. Qed.

(** C7, amended: [volume_cb] applies its input clamped to [0,100]
    (150 gives 100, -5 gives 0, 42 gives 42) in the command line it runs;
    the read side is not clamped: a tick stores the integer parsed from
    the mixer text, whatever it is. *)
Theorem volume_cb_clamps (a : AudioFilePlayer) (data : Z) :
  0 <= to_pct data <= 100 /\
  to_pct data = Z.max 0 (Z.min 100 data) /\
  volume_cb a data
    = volume_set_command a ++ " " ++ str (Z.max 0 (Z.min 100 data)) ++ "%" /\
  (to_pct 150 = 100 /\ to_pct (-5) = 0 /\ to_pct 42 = 42) /\
  forall output w,
    curr_vol (afp (snd (curr_vol_cb output w)))
    = match get_current_volume output with
      | Ok v => v
      | Raise _ => curr_vol (afp w)
      end.
Proof.
  assert (E : to_pct data = Z.max 0 (Z.min 100 data)).
  { unfold to_pct. destruct (data >? 100) eqn:E1; [lia|].
    destruct (data <? 0) eqn:E2; lia. }
  split; [rewrite E; lia|]. split; [exact E|].
  split; [unfold volume_cb; rewrite E; reflexivity|].
  split; [repeat split; reflexivity|].
  intros output w. unfold curr_vol_cb.
  destruct (get_current_volume output) as [v|e]; [|reflexivity].
  unfold publish_volume. cbn [ros set_afp].
  destruct (int8 v); [reflexivity|].
  destruct (connected (ros w)); reflexivity.
Qed.

(** ** C4: mixer text that cannot be parsed *)

(** C4, as stated, fails: on a mixer text without [%] or with letters
    before it [get_current_volume] raises [ValueError], and the tick
    [curr_vol_cb] lets the exception through. *)
Lemma malformed_reading_raises :
  get_current_volume "amixer: Unable to find simple control" = Raise ValueError /\
  get_current_volume "Mono: Playback 44 [n/a%]" = Raise ValueError /\
  fst (curr_vol_cb "amixer: Unable to find simple control" world0)
    = Raise ValueError.
Proof. repeat split; reflexivity. Qed.

Lemma count_ext p q (s : string) :
  (forall a, p a = q a) -> count p s = count q s.
Proof.
  intros H. induction s as [|a s IH]; simpl; [reflexivity|].
  rewrite H, IH. reflexivity.
Qed.

Lemma count_of_list p (l : list ascii) :
  count p (string_of_list_ascii l) = length (List.filter p l).
Proof.
  induction l as [|a l IH]; simpl; [reflexivity|].
  rewrite IH. destruct (p a); reflexivity.
Qed.

Lemma count_as_list p (s : string) :
  count p s = length (List.filter p (list_ascii_of_string s)).
Proof.
  rewrite <- count_of_list, string_of_list_ascii_of_string. reflexivity.
Qed.

Lemma filter_rev_length {A} (p : A -> bool) (l : list A) :
  length (List.filter p (List.rev l)) = length (List.filter p l).
Proof.
  induction l as [|a l IH]; simpl; [reflexivity|].
  rewrite List.filter_app, List.length_app, IH. simpl.
  destruct (p a); simpl; lia.
Qed.

Lemma count_rev p (s : string) : count p (rev s) = count p s.
Proof.
  unfold rev. rewrite count_of_list, filter_rev_length. symmetry.
  apply count_as_list.
Qed.

Lemma lstrip_count p (s : string) :
  (forall a, p a = true -> is_space a = false) ->
  count p (lstrip s) = count p s.
Proof.
  intros H. induction s as [|a s IH]; simpl; [reflexivity|].
  destruct (is_space a) eqn:S; [|reflexivity].
  rewrite IH. destruct (p a) eqn:P; [|reflexivity].
  rewrite (H a P) in S. discriminate.
Qed.

(** [strip] keeps every character that is not whitespace. *)
Lemma strip_count p (s : string) :
  (forall a, p a = true -> is_space a = false) ->
  count p (strip s) = count p s.
Proof.
  intros H. unfold strip, rstrip.
  rewrite count_rev, lstrip_count, count_rev, lstrip_count by exact H.
  reflexivity.
Qed.

Lemma is_digit_readable (a : ascii) : is_digit a = true -> readable a = true.
Proof. intros H. unfold readable. rewrite H. reflexivity. Qed.

Lemma digit_not_space (a : ascii) : is_digit a = true -> is_space a = false.
Proof.
  intros H. destruct a as [[] [] [] [] [] [] [] []];
    try reflexivity; discriminate H.
Qed.

Lemma unreadable_not_space (a : ascii) :
  negb (readable a) = true -> is_space a = false.
Proof.
  intros H. destruct (is_space a) eqn:S; [|reflexivity].
  unfold readable in H. rewrite S in H.
  destruct (is_digit a), (Ascii.eqb a "["); simpl in H; discriminate H.
Qed.

(** What [digits] accepts holds a digit, and only digits and underscores. *)
Lemma digits_accepts (s : string) : forall acc seen v,
  digits acc seen s = Some v ->
  (seen = true \/ (0 < count is_digit s)%nat) /\
  count (fun a => negb (readable a)) s = 0%nat.
Proof.
  induction s as [|a s IH]; intros acc seen v; simpl.
  - destruct seen; [|discriminate]. auto.
  - destruct (is_digit a) eqn:D.
    + intros E. destruct (IH _ _ _ E) as [_ H2].
      rewrite (is_digit_readable a D). simpl. split; [right; lia|exact H2].
    + destruct (Ascii.eqb_spec a "_") as [->|N]; simpl; [|discriminate].
      destruct seen; simpl; [|discriminate].
      intros E. destruct (IH _ _ _ E) as [[F|H1] H2]; [discriminate|].
      split; [right; exact H1|exact H2].
Qed.

Lemma int_cases (s : string) :
  int s = match strip s with
          | EmptyString => None
          | String a r =>
              if Ascii.eqb a "+" then digits 0 false r
              else if Ascii.eqb a "-" then option_map Z.opp (digits 0 false r)
              else digits 0 false (String a r)
          end.
Proof.
  unfold int. destruct (strip s) as [|a r]; [reflexivity|].
  destruct a as [[] [] [] [] [] [] [] []]; reflexivity.
Qed.

(** What [int] accepts holds a digit and nothing unreadable. *)
Lemma int_accepts (s : string) (v : Z) :
  int s = Some v ->
  (0 < count is_digit s)%nat /\ count (fun a => negb (readable a)) s = 0%nat.
Proof.
  rewrite int_cases.
  rewrite <- (strip_count is_digit s digit_not_space).
  rewrite <- (strip_count (fun a => negb (readable a)) s unreadable_not_space).
  destruct (strip s) as [|a r]; [discriminate|].
  destruct (Ascii.eqb_spec a "+") as [->|N1].
  { intros E. destruct (digits_accepts _ _ _ _ E) as [[F|H1] H2]; [discriminate|].
    simpl. split; [lia|exact H2]. }
  destruct (Ascii.eqb_spec a "-") as [->|N2].
  { destruct (digits 0 false r) as [u|] eqn:E; [|discriminate]. intros _.
    destruct (digits_accepts _ _ _ _ E) as [[F|H1] H2]; [discriminate|].
    simpl. split; [lia|exact H2]. }
  intros E. destruct (digits_accepts _ _ _ _ E) as [[F|H1] H2]; [discriminate|].
  split; [exact H1|exact H2].
Qed.

Lemma all_count p (s : string) :
  all p s = false -> (0 < count (fun a => negb (p a)) s)%nat.
Proof.
  induction s as [|a s IH]; simpl; [discriminate|].
  destruct (p a); simpl; [exact IH|lia].
Qed.

(** The text read from a slice holds the digits and the unreadable
    characters of the slice. *)
Lemma window_counts (w : string) :
  count is_digit (strip (remove_char "[" w)) = count is_digit w /\
  count (fun a => negb (readable a)) (strip (remove_char "[" w))
  = count (fun a => negb (readable a)) w.
Proof.
  split.
  - rewrite (strip_count _ _ digit_not_space), count_remove_char.
    apply count_ext. intros a.
    destruct a as [[] [] [] [] [] [] [] []]; reflexivity.
  - rewrite (strip_count _ _ unreadable_not_space), count_remove_char.
    apply count_ext. intros a. unfold readable.
    destruct (Ascii.eqb a "["); [|rewrite andb_true_r; reflexivity].
    rewrite orb_true_r. reflexivity.
Qed.

(** C4, amended: when the mixer text has no percent sign, or the slice of
    three characters before the first one has no decimal digit or has a
    character that is neither a digit, an opening bracket, whitespace, a
    sign nor an underscore, [get_current_volume] raises [ValueError];
    [curr_vol_cb] does not catch it: the exception leaves the tick, the
    stored volume is unchanged and nothing is published. *)
Theorem unreadable_volume_raises (output : string) (w : World) :
  (contains "%" output = false \/
   exists i, index "%" output = Some i /\
     (count is_digit (slice output (Z.of_nat i - 3) (Z.of_nat i)) = 0%nat \/
      all readable (slice output (Z.of_nat i - 3) (Z.of_nat i)) = false)) ->
  get_current_volume output = Raise ValueError /\
  curr_vol_cb output w = (Raise ValueError, w).
Proof.
  intros H.
  assert (E : get_current_volume output = Raise ValueError).
  { unfold get_current_volume. destruct H as [H | (i & H & Hw)].
    - unfold contains in H. destruct (index "%" output); [discriminate|reflexivity].
    - rewrite H.
      destruct (int (strip (remove_char "[" (slice output (Z.of_nat i - 3) (Z.of_nat i)))))
        as [v|] eqn:I; [|reflexivity].
      exfalso. destruct (int_accepts _ _ I) as [H1 H2].
      destruct (window_counts (slice output (Z.of_nat i - 3) (Z.of_nat i))) as [W1 W2].
      rewrite W1 in H1. rewrite W2 in H2.
      destruct Hw as [Hw|Hw]; [lia|]. apply all_count in Hw. lia. }
  split; [exact E|]. unfold curr_vol_cb. rewrite E. reflexivity.
Qed.

(** The amended C4 at a mixer line whose percentage is not a number. *)
Lemma unreadable_volume_raises_witness :
  get_current_volume "Mono: Playback 44 [n/a%]" = Raise ValueError /\
  curr_vol_cb "Mono: Playback 44 [n/a%]" world0 = (Raise ValueError, world0).
Proof.
  apply (unreadable_volume_raises "Mono: Playback 44 [n/a%]" world0).
  right. exists 22%nat. split; [reflexivity|]. right. reflexivity.
Defined.

(** ** Text lemmas for the volume parser *)

Lemma decimal_ok_all : forallb decimal_ok (seq 0 1000) = true.
Proof. vm_compute. reflexivity. Qed.

(** The decimal text of a number below 1000, as [get_current_volume] needs
    it. *)
Lemma decimal_facts (n : Z) :
  0 <= n < 1000 ->
  contains "%" (str n) = false /\ remove_char "[" (str n) = str n /\
  strip (str n) = str n /\ int (str n) = Some n.
Proof.
  intros Hn.
  pose proof decimal_ok_all as H. rewrite forallb_forall in H.
  specialize (H (Z.to_nat n)).
  assert (Hin : In (Z.to_nat n) (seq 0 1000)) by (apply in_seq; lia).
  apply H in Hin. unfold decimal_ok in Hin.
  rewrite Z2Nat.id in Hin by lia.
  apply andb_prop in Hin as [Hin H4]. apply andb_prop in Hin as [Hin H3].
  apply andb_prop in Hin as [H1 H2].
  apply negb_true_iff in H1. apply String.eqb_eq in H2, H3.
  repeat split; try assumption.
  destruct (int (str n)) as [v|]; [|discriminate].
  apply Z.eqb_eq in H4. congruence.
Qed.

Lemma index_app_fresh c (s t : string) :
  contains c s = false ->
  index c (s ++ String c t) = Some (String.length s).
Proof.
  unfold contains. induction s as [|a s IH]; simpl.
  - rewrite Ascii.eqb_refl. reflexivity.
  - destruct (Ascii.eqb a c); [discriminate|].
    destruct (index c s); [discriminate|]. intros _.
    rewrite IH by reflexivity. reflexivity.
Qed.

Lemma contains_app c (s t : string) :
  contains c (s ++ t) = contains c s || contains c t.
Proof.
  unfold contains. induction s as [|a s IH]; simpl; [reflexivity|].
  destruct (Ascii.eqb a c); [reflexivity|].
  destruct (index c (s ++ t)), (index c s), (index c t); simpl in *; congruence.
Qed.

Lemma string_length_app (s t : string) :
  String.length (s ++ t) = (String.length s + String.length t)%nat.
Proof. induction s; simpl; congruence. Qed.

Lemma substring_skip (a s : string) n :
  substring (String.length a) n (a ++ s) = substring 0 n s.
Proof. induction a as [|x a IH]; simpl; [reflexivity|exact IH]. Qed.

Lemma substring_prefix (w r : string) :
  substring 0 (String.length w) (w ++ r) = w.
Proof.
  induction w as [|x w IH]; simpl.
  - destruct r; reflexivity.
  - rewrite IH. reflexivity.
Qed.

(** The slice that ends where [w] ends and starts where it starts is [w]. *)
Lemma slice_window (a w r : string) :
  slice (a ++ w ++ r) (Z.of_nat (String.length a))
        (Z.of_nat (String.length a + String.length w)) = w.
Proof.
  unfold slice, slice_bound. rewrite !string_length_app.
  destruct (Z.ltb_spec (Z.of_nat (String.length a)) 0); [lia|].
  destruct (Z.ltb_spec (Z.of_nat (String.length a + String.length w)) 0); [lia|].
  rewrite !Z.min_l by lia.
  rewrite Nat2Z.id.
  replace (Z.to_nat _) with (String.length w) by lia.
  rewrite substring_skip. apply substring_prefix.
Qed.

Lemma string_append_assoc (s t u : string) : (s ++ t) ++ u = s ++ t ++ u.
Proof. induction s; simpl; congruence. Qed.

Lemma remove_char_app c (s t : string) :
  remove_char c (s ++ t) = remove_char c s ++ remove_char c t.
Proof.
  induction s as [|a s IH]; simpl; [reflexivity|].
  destruct (Ascii.eqb a c); simpl; congruence.
Qed.

Lemma pad_removed (pad : string) :
  all is_pad pad = true -> all is_space (remove_char "[" pad) = true.
Proof.
  induction pad as [|a s IH]; simpl; [reflexivity|].
  intros H. apply andb_prop in H as [Ha Hs]. unfold is_pad in Ha.
  destruct (Ascii.eqb a "["); simpl in *; [auto|].
  rewrite Ha. auto.
Qed.

Lemma pad_no_percent (pad : string) :
  all is_pad pad = true -> contains "%" pad = false.
Proof.
  unfold contains. induction pad as [|a s IH]; simpl; [reflexivity|].
  intros H. apply andb_prop in H as [Ha Hs].
  destruct (Ascii.eqb_spec a "%") as [->|_]; [discriminate Ha|].
  destruct (index "%" s); [discriminate (IH Hs)|reflexivity].
Qed.

Lemma lstrip_spaces (ws t : string) :
  all is_space ws = true -> lstrip (ws ++ t) = lstrip t.
Proof.
  induction ws as [|a s IH]; simpl; [reflexivity|].
  intros H. apply andb_prop in H as [Ha Hs]. rewrite Ha. auto.
Qed.

(** A padded number is read back from its window. *)
Lemma window_text (pad : string) (n : Z) :
  all is_pad pad = true -> 0 <= n < 1000 ->
  int (strip (remove_char "[" (pad ++ str n))) = Some n.
Proof.
  intros Hpad Hn. destruct (decimal_facts n Hn) as (_ & H2 & H3 & H4).
  rewrite remove_char_app, H2. unfold strip.
  rewrite lstrip_spaces by (apply pad_removed; exact Hpad).
  fold (strip (str n)). rewrite H3. exact H4.
Qed.

(** ** C9: reading the volume from the mixer text *)

(** C9, as stated, fails: only the first percent sign is looked at.  In
    the text below a percent sign comes before the bracketed token 51%,
    and [get_current_volume] raises instead of returning 51. *)
Lemma first_percent_only :
  get_current_volume "Volume in % is [51%]" = Raise ValueError.
Proof. reflexivity. Qed.

(** C9, amended: [get_current_volume] reads the three characters before
    the first percent sign of the text.  When these are a number from 0
    to 999 in decimal, padded on the left with opening brackets or
    whitespace, it returns that number. *)
Theorem get_current_volume_padded (pre pad post : string) (n : Z) :
  contains "%" pre = false ->
  all is_pad pad = true ->
  0 <= n < 1000 ->
  (String.length pad + String.length (str n) = 3)%nat ->
  get_current_volume (pre ++ pad ++ str n ++ "%" ++ post) = Ok n.
Proof.
  intros Hpre Hpad Hn Hlen.
  destruct (decimal_facts n Hn) as (H1 & _).
  set (w := pad ++ str n).
  assert (Hw : String.length w = 3%nat) by (unfold w; rewrite string_length_app; exact Hlen).
  assert (E : pre ++ pad ++ str n ++ "%" ++ post = (pre ++ w) ++ String "%" post).
  { unfold w. rewrite !string_append_assoc. reflexivity. }
  unfold get_current_volume. rewrite E.
  rewrite index_app_fresh
    by (unfold w; rewrite !contains_app, Hpre, H1, (pad_no_percent pad Hpad);
        reflexivity).
  rewrite string_length_app, Hw, string_append_assoc.
  replace (Z.of_nat (String.length pre + 3) - 3)
    with (Z.of_nat (String.length pre)) by lia.
  rewrite <- Hw at 1. rewrite slice_window. unfold w.
  rewrite window_text by assumption. reflexivity.
Qed.

(** For the mixer text quoted in the source the volume read is 51. *)
Lemma get_current_volume_amixer : get_current_volume amixer_output = Ok 51.
Proof.
  apply (get_current_volume_padded
           ("Simple mixer control 'Master',0" ++ newline ++
            "  Capabilities: pvolume pvolume-joined pswitch pswitch-joined" ++ newline ++
            "  Playback channels: Mono" ++ newline ++
            "  Limits: Playback 0 - 87" ++ newline ++
            "  Mono: Playback 44 ")
           "[" ("] [-32.25dB] [on]" ++ newline) 51);
    [reflexivity | reflexivity | lia | reflexivity].
Defined.

(** ** The handle *)

Lemma get_retcode_cached (h : ShellCmd) (o : OS) (c : Z) :
  retcode h = Some c -> get_retcode h o = (Some c, h, o).
Proof. intros H. unfold get_retcode. rewrite H. reflexivity. Qed.

Lemma is_done_cached (h : ShellCmd) (o : OS) (c : Z) :
  retcode h = Some c -> is_done h o = (true, h, o).
Proof. intros H. unfold is_done. rewrite (get_retcode_cached h o c H). reflexivity. Qed.

Lemma is_succeeded_cached (h : ShellCmd) (o : OS) (c : Z) :
  retcode h = Some c -> is_succeeded h o = (c =? 0, h, o).
Proof.
  intros H. unfold is_succeeded. rewrite (get_retcode_cached h o c H).
  reflexivity.
Qed.

(** [kill] sets the return code to -1 whatever the child. *)
Lemma kill_retcode (h : ShellCmd) (o : OS) :
  snd (fst (kill h o)) = set_retcode (Some (-1)) h.
Proof.
  unfold kill. destruct (procs o !! process h) as [[| |]|];
    [| |destruct (group_left o (process h))|]; reflexivity.
Qed.

(** Without a kill, a handle that holds a return code keeps it. *)
Lemma apply_ops_cached (xs : list op) (h : ShellCmd) (o : OS) (c : Z) :
  retcode h = Some c -> forallb (fun x => negb (is_kill x)) xs = true ->
  fst (apply_ops xs (h, o)) = h.
Proof.
  intros H. revert o. induction xs as [|x xs IH]; intros o Hx; [reflexivity|].
  simpl in Hx. apply andb_prop in Hx as [Hx Hxs].
  unfold apply_ops. simpl fold_left. fold (apply_ops xs).
  destruct x; simpl in Hx; try discriminate; simpl.
  - rewrite (get_retcode_cached h o c H). apply IH, Hxs.
  - rewrite (is_done_cached h o c H). apply IH, Hxs.
  - rewrite (is_succeeded_cached h o c H). apply IH, Hxs.
  - apply IH, Hxs.
Qed.

(** After a kill the return code is -1 whatever is called next. *)
Lemma apply_ops_killed (xs : list op) (h : ShellCmd) (o : OS) :
  retcode h = Some (-1) -> retcode (fst (apply_ops xs (h, o))) = Some (-1).
Proof.
  revert h o. induction xs as [|x xs IH]; intros h o H; [exact H|].
  unfold apply_ops. simpl fold_left. fold (apply_ops xs).
  destruct x; simpl.
  - rewrite (get_retcode_cached h o _ H). apply IH, H.
  - rewrite (is_done_cached h o _ H). apply IH, H.
  - rewrite (is_succeeded_cached h o _ H). apply IH, H.
  - pose proof (kill_retcode h o) as K.
    destruct (kill h o) as [[r h'] o']. simpl in K. apply IH. rewrite K. reflexivity.
  - apply IH, H.
Qed.

Lemma del_done (h : ShellCmd) (o : OS) (c : Z) :
  retcode h = Some c -> del h o = o.
Proof. intros H. unfold del. rewrite (is_done_cached h o c H). reflexivity. Qed.

Lemma set_current_same (w : World) (h : ShellCmd) :
  current_playing_process (afp w) = Some h ->
  set_afp (set_current (Some h) (afp w)) (set_os (os w) w) = w.
Proof. destruct w as [o r [] n]. simpl. intros ->. reflexivity. Qed.

(** C3, as stated, fails: a handle observed as succeeded (return code 0)
    and then killed shows a failure with code -1, and the kill is not a
    silent no-op either: here the group of the reaped child has no member
    left and [os.killpg] raises. *)
Lemma kill_overwrites_success :
  let '(h0, o0) := spawn "play  'a.wav'" os0 in
  let o1 := proc_exit 0 0 o0 in
  let '(b, h1, o2) := is_succeeded h0 o1 in
  let '(r, h2, o3) := kill h1 o2 in
  b = true /\ completion_of h1 = StSucceeded /\
  r = Raise OSError /\ completion_of h2 = StFailed (-1) /\
  fst (fst (is_succeeded h2 o3)) = false.
Proof. vm_compute. repeat split; reflexivity. Qed.

(** C3, amended: once a handle holds a return code, [get_retcode],
    [is_done] and [is_succeeded] never change it, whatever the child
    does; [kill] sets the return code to -1 on every handle, completed or
    not, and a second kill leaves it at -1; the guarded kill of
    [__del__] and [topic_cb] (kill only when not done) leaves a completed
    handle as it is. *)
Theorem completion_kept_until_kill (h : ShellCmd) (o : OS) (c : Z) :
  retcode h = Some c ->
  (forall xs o', forallb (fun x => negb (is_kill x)) xs = true ->
                 fst (apply_ops xs (h, o')) = h) /\
  retcode (snd (fst (kill h o))) = Some (-1) /\
  (forall o', snd (fst (kill (snd (fst (kill h o))) o')) = snd (fst (kill h o))) /\
  del h o = o /\
  (forall w, current_playing_process (afp w) = Some h ->
             topic_cb_guard w = (Ok tt, w)).
Proof.
  intros H. split; [|split; [|split; [|split]]].
  - intros xs o' Hx. exact (apply_ops_cached xs h o' c H Hx).
  - rewrite kill_retcode. reflexivity.
  - intros o'. rewrite !kill_retcode. reflexivity.
  - exact (del_done h o c H).
  - intros w Hw. unfold topic_cb_guard. rewrite Hw.
    rewrite (is_done_cached h (os w) c H). rewrite set_current_same by exact Hw.
    reflexivity.
Qed.

(** The amended C3 at a handle that holds the return code 0. *)
Lemma completion_kept_until_kill_witness :
  let h := mkShellCmd "play  'a.wav'" (Some 0) 0 in
  retcode h = Some 0 /\
  fst (apply_ops [OpIsDone; OpProcExit 1; OpIsSucceeded; OpGetRetcode] (h, os0)) = h /\
  del h os0 = os0.
Proof.
  pose proof (completion_kept_until_kill
                (mkShellCmd "play  'a.wav'" (Some 0) 0) os0 0 eq_refl)
    as (H1 & _ & _ & H4 & _).
  split; [reflexivity|]. split; [apply H1; reflexivity|exact H4].
Defined.

(** C10: whatever the state of the child, after [kill] the handle holds
    the return code -1; it is done and not succeeded, and stays so under
    every later sequence of calls and whatever the child does. *)
Theorem killed_is_failed (h : ShellCmd) (o : OS) (xs : list op) (o1 o2 : OS) :
  let h1 := snd (fst (kill h o)) in
  let h2 := fst (apply_ops xs (h1, o1)) in
  retcode h1 = Some (-1) /\
  is_done h1 (snd (kill h o)) = (true, h1, snd (kill h o)) /\
  is_succeeded h1 (snd (kill h o)) = (false, h1, snd (kill h o)) /\
  retcode h2 = Some (-1) /\
  is_done h2 o2 = (true, h2, o2) /\
  is_succeeded h2 o2 = (false, h2, o2).
Proof.
  intros h1 h2.
  assert (H1 : retcode h1 = Some (-1)) by (unfold h1; rewrite kill_retcode; reflexivity).
  assert (H2 : retcode h2 = Some (-1)) by (apply apply_ops_killed, H1).
  repeat split; try assumption.
  - exact (is_done_cached _ _ _ H1).
  - exact (is_succeeded_cached _ _ _ H1).
  - exact (is_done_cached _ _ _ H2).
  - exact (is_succeeded_cached _ _ _ H2).
Qed.

(** ** C1: a cancel request during playback *)

(** *** Children and handles *)

Lemma stopped_insert (o : OS) (p q : nat) (x : pstate) :
  x <> Running -> stopped o p -> stopped (set_procs (<[q := x]>) o) p.
Proof.
  unfold stopped. simpl. intros Hx Hp.
  destruct (decide (q = p)) as [->|Hne].
  - destruct (decide (p < length (procs o))%nat) as [Hlt|Hge].
    + rewrite list_lookup_insert_eq by exact Hlt. congruence.
    + rewrite list_insert_ge by lia. exact Hp.
  - rewrite list_lookup_insert_ne by exact Hne. exact Hp.
Qed.

Lemma stopped_proc_exit (o : OS) (p q : nat) (c : Z) :
  stopped o p -> stopped (proc_exit q c o) p.
Proof.
  intros H. unfold proc_exit.
  destruct (procs o !! q) as [[| |]|]; try exact H.
  apply stopped_insert; [discriminate|exact H].
Qed.

Lemma reaped_proc_exit (o : OS) (p q : nat) (c : Z) :
  reaped o p -> reaped (proc_exit q c o) p.
Proof.
  intros [x H]. unfold proc_exit, reaped.
  destruct (procs o !! q) as [[| |]|] eqn:E; eauto.
  simpl. exists x. rewrite list_lookup_insert_ne; [exact H|].
  intros ->. congruence.
Qed.

(** [get_retcode] stores a code only for a child it has reaped. *)
Lemma get_retcode_sound (h h' : ShellCmd) (o o' : OS) (r : option Z) :
  get_retcode h o = (r, h', o') -> sound_handle o h ->
  retcode h' = r /\ process h' = process h /\ sound_handle o' h'.
Proof.
  unfold get_retcode, sound_handle. destruct (retcode h) as [c|] eqn:R.
  - intros E Hs. inversion E; subst. rewrite R. auto.
  - unfold poll. intros E _.
    destruct (procs o !! process h) as [[|c|c]|] eqn:P; inversion E; subst;
      simpl; (split; [reflexivity|split; [reflexivity|]]);
      try (intros F; congruence); intros _; unfold stopped; simpl.
    rewrite list_lookup_insert_eq by (eapply lookup_lt_Some; exact P).
    discriminate.
Qed.

(** Effect of [kill] on the child: it is not alive afterwards, reaped when
    the call returns, and a child already reaped is left as it is. *)
Lemma kill_reaps (h h' : ShellCmd) (o o' : OS) (r : result unit) :
  kill h o = (r, h', o') ->
  h' = set_retcode (Some (-1)) h /\
  (stopped o' (process h)) /\
  (r = Ok tt -> reaped o' (process h)) /\
  (reaped o (process h) -> o' = o).
Proof.
  unfold kill, stopped, reaped.
  destruct (procs o !! process h) as [[|c|c]|] eqn:P;
    [| |destruct (group_left o (process h))|]; intros E;
    inversion E; subst; simpl; (split; [reflexivity|]).
  - rewrite list_lookup_insert_eq by (eapply lookup_lt_Some; exact P).
    split; [discriminate|]. split; [eauto|]. intros [x Hx]. congruence.
  - rewrite list_lookup_insert_eq by (eapply lookup_lt_Some; exact P).
    split; [discriminate|]. split; [eauto|]. intros [x Hx]. congruence.
  - split; [congruence|]. split; [eauto|]. auto.
  - split; [congruence|]. split; [discriminate|]. auto.
  - split; [congruence|]. split; [discriminate|]. auto.
Qed.

Lemma is_done_sound (h h' : ShellCmd) (o o' : OS) (d : bool) :
  is_done h o = (d, h', o') -> sound_handle o h ->
  process h' = process h /\ sound_handle o' h' /\
  (d = true -> retcode h' <> None).
Proof.
  unfold is_done. destruct (get_retcode h o) as [[r h1] o1] eqn:G.
  intros E Hs. inversion E; subst.
  destruct (get_retcode_sound _ _ _ _ _ G Hs) as (Hr & Hp & Hs').
  split; [exact Hp|]. split; [exact Hs'|].
  rewrite Hr. destruct r; [discriminate|discriminate].
Qed.

Lemma is_succeeded_sound (h h' : ShellCmd) (o o' : OS) (b : bool) :
  is_succeeded h o = (b, h', o') -> sound_handle o h ->
  process h' = process h /\ sound_handle o' h' /\
  (b = true -> retcode h' <> None).
Proof.
  unfold is_succeeded. destruct (get_retcode h o) as [[r h1] o1] eqn:G.
  intros E Hs. inversion E; subst.
  destruct (get_retcode_sound _ _ _ _ _ G Hs) as (Hr & Hp & Hs').
  split; [exact Hp|]. split; [exact Hs'|].
  rewrite Hr. destruct r; [discriminate|discriminate].
Qed.

Lemma forallb_snoc {A} (f : A -> bool) (l : list A) (x : A) :
  forallb f l = true -> f x = true -> forallb f (l ++ [x])%list = true.
Proof. intros Hl Hx. rewrite forallb_app, Hl. simpl. rewrite Hx. reflexivity. Qed.

(** Every statement of [as_cb] keeps the invariant of the session. *)
Lemma inv_step (s : session) : inv s -> inv (as_cb_step s).
Proof.
  destruct s as [w p g t0 t1 sp]. unfold inv, as_cb_step. simpl.
  intros (I1 & I2 & I3).
  destruct p; simpl in *.
  - (* AsInit *)
    split; [intros _; apply I1; discriminate|]. split; discriminate.
  - (* AsSpawn *)
    split; [intros _; apply I1; discriminate|].
    split; [intros _; eexists; split; reflexivity|discriminate].
  - (* AsBind *)
    destruct (I2 eq_refl) as (h & -> & Hr). simpl.
    split; [intros _; unfold play_bind; simpl; apply I1; discriminate|].
    split; [discriminate|]. intros _. exists h. unfold play_bind. simpl.
    split; [reflexivity|]. split; [|discriminate].
    intros F. congruence.
  - (* AsLoop *)
    destruct (I3 eq_refl) as (h & Hc & Hs & _).
    destruct (is_shutdown (os w)); simpl.
    + split; [intros _; apply I1; discriminate|]. split; [discriminate|].
      intros _. exists h. split; [exact Hc|]. split; [exact Hs|discriminate].
    + rewrite Hc. destruct (is_done h (os w)) as [[d h1] o1] eqn:D.
      destruct (is_done_sound _ _ _ _ _ D Hs) as (_ & Hs1 & _).
      destruct d; simpl;
        (split; [intros _; apply I1; discriminate|]; split; [discriminate|];
         intros _; exists h1; split; [reflexivity|]; split; [exact Hs1|discriminate]).
  - (* AsFeedback *)
    destruct (I3 eq_refl) as (h & Hc & Hs & _).
    split; [intros _; apply I1; discriminate|]. split; [discriminate|].
    intros _. exists h. split; [exact Hc|]. split; [exact Hs|discriminate].
  - (* AsSleep *)
    destruct (I3 eq_refl) as (h & Hc & Hs & _).
    split; [intros _; apply I1; discriminate|]. split; [discriminate|].
    intros _. exists h. split; [exact Hc|]. split; [exact Hs|discriminate].
  - (* AsFinal *)
    destruct (I3 eq_refl) as (h & Hc & Hs & _).
    split; [intros _; apply I1; discriminate|]. split; [discriminate|].
    intros _. exists h. split; [exact Hc|]. split; [exact Hs|discriminate].
  - (* AsCheckSucceeded *)
    destruct (I3 eq_refl) as (h & Hc & Hs & _). rewrite Hc.
    destruct (is_succeeded h (os w)) as [[b h1] o1] eqn:D.
    destruct (is_succeeded_sound _ _ _ _ _ D Hs) as (_ & Hs1 & Hb).
    destruct b; simpl;
      (split; [intros _; apply I1; discriminate|]; split; [discriminate|];
       intros _; exists h1; split; [reflexivity|]; split; [exact Hs1|]).
    + intros _. apply Hb. reflexivity.
    + discriminate.
  - (* AsSetSucceeded *)
    split; [intros F; exfalso; apply F; reflexivity|]. split; discriminate.
  - (* AsCheckPreempt *)
    destruct (I3 eq_refl) as (h & Hc & Hs & _).
    destruct (preempt_requested (ros w)); simpl.
    + split; [intros F; exfalso; apply F; reflexivity|]. split; discriminate.
    + split; [intros _; apply I1; discriminate|]. split; [discriminate|].
      intros _. exists h. split; [exact Hc|]. split; [exact Hs|discriminate].
  - (* AsSetAborted *)
    destruct (current_playing_process (afp w)); simpl;
      (split; [intros F; exfalso; apply F; reflexivity|]; split; discriminate).
  - (* AsReturn *)
    split; [exact I1|]. split; [exact I2|exact I3].
Qed.

(** So does every move of the environment. *)
Lemma inv_exec (s : session) (e : event) : inv s -> inv (exec s e).
Proof.
  destruct e as [|t|q c| |]; [apply inv_step| | | |];
    destruct s as [w p g t0 t1 sp]; unfold inv; simpl;
    intros (I1 & I2 & I3).
  - (* Tick *) split; [exact I1|]. split; [exact I2|exact I3].
  - (* ProcExit *)
    split; [exact I1|]. split; [exact I2|].
    intros Hp. destruct (I3 Hp) as (h & Hc & Hs & Hr).
    exists h. split; [exact Hc|]. split; [|exact Hr].
    intros F. apply stopped_proc_exit, Hs, F.
  - (* Shutdown *) split; [exact I1|]. split; [exact I2|exact I3].
  - (* Cancel *)
    unfold cancel, as_preempt_cb. simpl.
    destruct (current_playing_process (afp w)) as [h|] eqn:Hc; simpl.
    + destruct (kill h (os w)) as [[r h1] o1] eqn:K.
      destruct (kill_reaps _ _ _ _ _ K) as (-> & Hst & _ & _).
      destruct r; simpl.
      * split; [intros Hp; apply forallb_snoc; [apply I1, Hp|reflexivity]|].
        split; [exact I2|]. intros _. eexists. split; [reflexivity|].
        split; [intros _; exact Hst|discriminate].
      * split; [exact I1|]. split; [exact I2|]. intros _.
        eexists. split; [reflexivity|]. split; [intros _; exact Hst|discriminate].
    + split; [exact I1|]. split; [exact I2|]. intros Hp.
      destruct (I3 Hp) as (h & F & _). discriminate.
Qed.

Lemma run_app (es1 es2 : list event) (s : session) :
  run (es1 ++ es2)%list s = run es2 (run es1 s).
Proof. unfold run. apply fold_left_app. Qed.

Lemma inv_run (es : list event) (s : session) : inv s -> inv (run es s).
Proof.
  revert s. induction es as [|e es IH]; intros s H; [exact H|].
  simpl. apply IH, inv_exec, H.
Qed.

Lemma inv_start (g : string) (w : World) : inv (session_start g w).
Proof.
  unfold inv. simpl. split; [reflexivity|]. split; discriminate.
Qed.

Lemma is_done_true (h h' : ShellCmd) (o o' : OS) :
  is_done h o = (true, h', o') -> retcode h' <> None.
Proof.
  unfold is_done, get_retcode. destruct (retcode h) as [c|] eqn:R.
  - intros E. inversion E; subst. congruence.
  - destruct (poll (process h) o) as [[c|] o1]; intros E; inversion E.
    simpl. discriminate.
Qed.

Lemma poll_shutdown (p : nat) (o : OS) :
  is_shutdown (snd (poll p o)) = is_shutdown o.
Proof. unfold poll. destruct (procs o !! p) as [[| |]|]; reflexivity. Qed.

Lemma get_retcode_shutdown (h : ShellCmd) (o : OS) :
  is_shutdown (snd (get_retcode h o)) = is_shutdown o.
Proof.
  unfold get_retcode. destruct (retcode h); [reflexivity|].
  pose proof (poll_shutdown (process h) o) as P.
  destruct (poll (process h) o). exact P.
Qed.

Lemma kill_shutdown (h : ShellCmd) (o : OS) :
  is_shutdown (snd (kill h o)) = is_shutdown o.
Proof.
  unfold kill. destruct (procs o !! process h) as [[| |]|];
    [| |destruct (group_left o (process h))|]; reflexivity.
Qed.

Lemma del_shutdown (h : ShellCmd) (o : OS) :
  is_shutdown (del h o) = is_shutdown o.
Proof.
  unfold del, is_done.
  pose proof (get_retcode_shutdown h o) as G.
  destruct (get_retcode h o) as [[r h1] o1]. simpl in G.
  destruct r; [exact G|].
  pose proof (kill_shutdown h1 o1) as K.
  destruct (kill h1 o1) as [[x y] o2]. simpl in K. congruence.
Qed.

(** Statements and events other than a shutdown keep [left_when_done]. *)
Lemma left_when_done_step (s : session) :
  left_when_done s -> left_when_done (as_cb_step s).
Proof.
  destruct s as [w p g t0 t1 sp]. unfold left_when_done, as_cb_step. simpl.
  intros (Hsd & Hl).
  destruct p; simpl in *.
  - split; [exact Hsd|discriminate].
  - split; [exact Hsd|discriminate].
  - destruct sp as [h|]; simpl; [|split; [exact Hsd|discriminate]].
    split; [|discriminate]. unfold play_bind. simpl.
    destruct (current_playing_process (afp w)); [|exact Hsd].
    rewrite del_shutdown. exact Hsd.
  - rewrite Hsd. destruct (current_playing_process (afp w)) as [h|] eqn:Hc; simpl;
      [|split; [exact Hsd|discriminate]].
    destruct (is_done h (os w)) as [[d h1] o1] eqn:D.
    assert (S1 : is_shutdown o1 = false).
    { unfold is_done in D. pose proof (get_retcode_shutdown h (os w)) as G.
      destruct (get_retcode h (os w)) as [[r h2] o2]. inversion D; subst.
      simpl in G. congruence. }
    destruct d; simpl.
    + split; [exact S1|]. intros _. exists h1. split; [reflexivity|].
      exact (is_done_true _ _ _ _ D).
    + split; [exact S1|discriminate].
  - split; [exact Hsd|discriminate].
  - split; [exact Hsd|discriminate].
  - split; [exact Hsd|]. intros _. apply Hl. reflexivity.
  - destruct (Hl eq_refl) as (h & Hc & Hr). rewrite Hc.
    destruct (retcode h) as [c|] eqn:R; [|congruence].
    rewrite (is_succeeded_cached h (os w) c R).
    destruct (c =? 0); simpl;
      (split; [exact Hsd|]; intros _; exists h; split; [reflexivity|congruence]).
  - split; [exact Hsd|discriminate].
  - destruct (preempt_requested (ros w)); simpl.
    + split; [exact Hsd|discriminate].
    + split; [exact Hsd|]. intros _. apply Hl. reflexivity.
  - destruct (current_playing_process (afp w)); simpl; (split; [exact Hsd|discriminate]).
  - split; [exact Hsd|exact Hl].
Qed.

Lemma left_when_done_exec (s : session) (e : event) :
  is_shutdown_event e = false ->
  left_when_done s -> left_when_done (exec s e).
Proof.
  destruct e as [|t|q c| |]; intros He; try discriminate He;
    [apply left_when_done_step| | |];
    destruct s as [w p g t0 t1 sp]; unfold left_when_done; simpl;
    intros (Hsd & Hl).
  - split; [exact Hsd|exact Hl].
  - split; [|exact Hl]. unfold proc_exit.
    destruct (procs (os w) !! q) as [[| |]|]; exact Hsd.
  - unfold cancel, as_preempt_cb. simpl.
    destruct (current_playing_process (afp w)) as [h|] eqn:Hc; simpl.
    + pose proof (kill_shutdown h (os w)) as K.
      pose proof (kill_retcode h (os w)) as R.
      destruct (kill h (os w)) as [[r h1] o1]. simpl in K, R. subst h1.
      destruct r; simpl; (split; [congruence|]; intros _; eexists;
        split; [reflexivity|discriminate]).
    + split; [exact Hsd|]. intros Hp. destruct (Hl Hp) as (h & F & _). discriminate.
Qed.

Lemma left_when_done_run (es : list event) (s : session) :
  forallb (fun e => negb (is_shutdown_event e)) es = true ->
  left_when_done s -> left_when_done (run es s).
Proof.
  revert s. induction es as [|e es IH]; intros s He H; [exact H|].
  simpl in He. apply andb_prop in He as [He Hes]. apply negb_true_iff in He.
  simpl. apply IH; [exact Hes|]. apply left_when_done_exec; assumption.
Qed.

(** As long as rospy is not shut down, a player that is alive has the
    thread of [as_cb] in its loop: the cancel request is in time. *)
Lemma alive_player_before_check (g : string) (w0 : World) (es : list event) :
  is_shutdown (os w0) = false ->
  forallb (fun e => negb (is_shutdown_event e)) es = true ->
  let s := run es (session_start g w0) in
  playing (at_pc s) = true -> current_running (world s) = true ->
  before_abort (at_pc s) = true.
Proof.
  intros H0 Hes s Hp Hrun.
  assert (I : inv s) by apply inv_run, inv_start.
  assert (L : left_when_done s).
  { apply left_when_done_run; [exact Hes|]. split; [exact H0|discriminate]. }
  destruct (at_pc s) eqn:P; try reflexivity. exfalso.
  destruct L as (_ & L). rewrite P in L. destruct (L eq_refl) as (h & Hc & Hr).
  destruct I as (_ & _ & I3). rewrite P in I3.
  destruct (I3 eq_refl) as (h' & Hc' & Hs & _).
  assert (h' = h) by congruence. subst h'.
  unfold current_running in Hrun. rewrite Hc in Hrun.
  destruct (procs (os (world s)) !! process h) as [[| |]|] eqn:Q; try discriminate.
  exact (Hs Hr Q).
Qed.

(** *** Cancel requests among the moves of the node *)














(** ** The subscription gate and the timers *)

Lemma peer_subscribe_gate (w : World) : gate_ok w -> gate_ok (peer_subscribe w).
Proof.
  intros [H1 H2]. unfold peer_subscribe, gate_ok.
  destruct (Z.eqb_spec (num_peers w) 0) as [E|E].
  - unfold enable_volume_service.
    destruct (volume_timer (afp w)) eqn:T; simpl.
    + exfalso. assert (0 < num_peers w) by (apply H1; congruence). lia.
    + rewrite E. split; [split; [lia|congruence]|lia].
  - simpl. split; [|lia]. split; [lia|]. intros _. apply H1. lia.
Qed.

(** A peer leaves: rospy reports the number [n] of peers that remain, which
    is positive only if there were peers. *)
Lemma peer_unsubscribe_gate (n : Z) (w : World) :
  gate_ok w -> 0 <= n -> (0 < n -> 0 < num_peers w) ->
  gate_ok (peer_unsubscribe n w).
Proof.
  intros [H1 H2] Hn Hpos. unfold peer_unsubscribe, gate_ok.
  destruct (Z.eqb_spec n 0) as [E|E].
  - subst n. unfold disable_volume_servce. simpl.
    destruct (volume_timer (afp w)) eqn:T; simpl.
    + split; [split; [congruence|lia]|lia].
    + rewrite T. split; [split; [congruence|lia]|lia].
  - simpl. split; [|lia]. split; [lia|]. intros _. apply H1, Hpos. lia.
Qed.

Lemma enable_volume_service_twice (w : World) :
  enable_volume_service (enable_volume_service w) = enable_volume_service w.
Proof.
  unfold enable_volume_service.
  destruct (volume_timer (afp w)) eqn:T; simpl; [rewrite T|]; reflexivity.
Qed.

Lemma disable_volume_servce_twice (w : World) :
  disable_volume_servce (disable_volume_servce w) = disable_volume_servce w.
Proof.
  unfold disable_volume_servce.
  destruct (volume_timer (afp w)) eqn:T; simpl; [|rewrite T]; reflexivity.
Qed.

(** Every call of [play_audio_file] starts one more timer and shuts none
    down. *)
Lemma play_audio_file_timers (path : string) (w : World) :
  live_timers (ros (play_audio_file path w))
  = (live_timers (ros w) ++ [next_timer (ros w)])%list.
Proof. reflexivity. Qed.

(** C8: the code registers a second polling timer.  With one listener
    subscribed, the gate's timer 0 is live; a play request then starts
    timer 1 next to it.  Two play requests in a row also leave two live
    timers. *)
Theorem playback_registers_second_timer :
  live_timers (ros (peer_subscribe world0)) = [0%nat] /\
  live_timers (ros (snd (topic_cb "a.wav" (peer_subscribe world0))))
    = [0%nat; 1%nat] /\
  live_timers (ros (snd (topic_cb "b.wav" (snd (topic_cb "a.wav" world0)))))
    = [0%nat; 1%nat].
Proof. repeat split; reflexivity. Qed.

(** ** C2: one child at a time *)

(** C2: the action path starts the new player while the previous one is
    alive.  A file started from the topic is playing when a goal
    arrives; after the statement [ShellCmd(full_command)] of
    [play_audio_file] two children are alive, and the previous one is
    ended only afterwards, by the finalizer of its handle. *)
Theorem action_goal_spawns_before_kill :
  let w1 := snd (topic_cb "a.wav" world0) in
  let s := session_start "b.wav" w1 in
  procs (os w1) = [Running] /\
  at_pc (run [Step; Step] s) = AsBind /\
  procs (os (world (run [Step; Step] s))) = [Running; Running] /\
  alive (os (world (run [Step; Step] s))) = 2%nat /\
  procs (os (world (run [Step; Step; Step] s))) = [Reaped (-15); Running].
Proof. repeat split; reflexivity. Qed.

(** ** C6: the total time of a successful playback *)

(** Whatever the start time, a successful playback reports the clock
    reading taken after the loop. *)
Lemma success_reports_clock (s : session) (h : ShellCmd) :
  at_pc s = AsFinal ->
  current_playing_process (afp (world s)) = Some h -> retcode h = Some 0 ->
  results (ros (world (run [Step; Step; Step] s)))
  = (results (ros (world s)) ++ [Succeeded (clock (os (world s)))])%list.
Proof.
  destruct s as [w p g t0 t1 sp]. simpl. intros -> Hc Hr.
  unfold as_cb_step at 3. simpl.
  unfold as_cb_step at 2. simpl. rewrite Hc, (is_succeeded_cached h _ _ Hr).
  simpl. reflexivity.
Qed.

(** C6: the total time is not the elapsed time.  The goal is accepted
    when the clock reads 1000, the player ends with status 0 and the
    loop is left when the clock reads 1003: the feedback sent meanwhile
    carries the elapsed time 1, the result carries 1003, not 3. *)
Theorem total_time_is_clock_reading :
  let es := [Tick 1000; Step; Step; Step; Step; Tick 1001; Step; Step;
             ProcExit 0 0; Tick 1003; Step; Step; Step; Step] in
  let s := run es (session_start "a.wav" world0) in
  at_pc s = AsReturn /\
  initial_time s = 1000 /\ final_time s = 1003 /\
  feedback (ros (world s)) = [1] /\
  results (ros (world s)) = [Succeeded 1003] /\
  final_time s - initial_time s = 3.
Proof. repeat split; reflexivity. Qed.

(** *** The topic path *)

Lemma filter_none_running (l : list pstate) :
  (forall p, l !! p <> Some Running) -> List.filter is_running l = [].
Proof.
  induction l as [|x l IH]; intros H; [reflexivity|].
  simpl. destruct x; simpl.
  - exfalso. apply (H 0%nat). reflexivity.
  - apply IH. intros p. apply (H (S p)).
  - apply IH. intros p. apply (H (S p)).
Qed.

Lemma none_alive_zero (o : OS) : none_alive o -> alive o = 0%nat.
Proof. intros H. unfold alive. rewrite filter_none_running; [reflexivity|exact H]. Qed.

Lemma spawn_alive (c : string) (o : OS) :
  alive (snd (spawn c o)) = S (alive o).
Proof.
  unfold alive, spawn. simpl. rewrite List.filter_app, List.length_app. simpl. lia.
Qed.

Lemma none_alive_insert (o : OS) (q : nat) (x : pstate) :
  x <> Running ->
  (forall p, procs o !! p = Some Running -> p = q) ->
  none_alive (set_procs (<[q := x]>) o).
Proof.
  intros Hx H p. simpl. destruct (decide (q = p)) as [->|Hne].
  - destruct (decide (p < length (procs o))%nat) as [Hlt|Hge].
    + rewrite list_lookup_insert_eq by exact Hlt. congruence.
    + rewrite list_insert_ge by lia. rewrite lookup_ge_None_2 by lia. discriminate.
  - rewrite list_lookup_insert_ne by exact Hne. intros F. apply Hne.
    symmetry. apply H, F.
Qed.

(** The guard of [topic_cb] leaves no child alive, and a handle that is
    done. *)
Lemma topic_cb_guard_ends_player (w : World) :
  one_player w ->
  exists w1, topic_cb_guard w = (Ok tt, w1) /\ none_alive (os w1) /\
    ros w1 = ros w /\
    (forall h, current_playing_process (afp w1) = Some h ->
               retcode h <> None).
Proof.
  intros [H1 H2]. unfold topic_cb_guard.
  destruct (current_playing_process (afp w)) as [h|] eqn:Hc.
  - specialize (H2 h eq_refl).
    assert (Hrun : forall p, procs (os w) !! p = Some Running -> p = process h).
    { intros p Hp. destruct (H1 p Hp) as (h' & E & <- & _). congruence. }
    unfold is_done, get_retcode.
    destruct (retcode h) as [c|] eqn:R.
    + eexists. split; [reflexivity|]. simpl. split; [|split; [reflexivity|]].
      * intros p Hp. destruct (H1 p Hp) as (h' & E & _ & F). congruence.
      * intros h' E. inversion E; subst. congruence.
    + unfold poll.
      destruct (procs (os w) !! process h) as [[|c|c]|] eqn:P.
      * unfold kill. simpl. rewrite P.
        eexists. split; [reflexivity|]. simpl. split; [|split; [reflexivity|]].
        -- apply none_alive_insert; [discriminate|exact Hrun].
        -- intros h' E. inversion E; subst; simpl; discriminate.
      * eexists. split; [reflexivity|]. simpl. split; [|split; [reflexivity|]].
        -- apply none_alive_insert; [discriminate|exact Hrun].
        -- intros h' E. inversion E; subst; simpl; discriminate.
      * eexists. split; [reflexivity|]. simpl. split; [|split; [reflexivity|]].
        -- intros p Hp. rewrite (Hrun p Hp) in Hp. congruence.
        -- intros h' E. inversion E; subst; simpl; discriminate.
      * apply lookup_ge_None_1 in P. lia.
  - exists w. split; [reflexivity|]. split; [|split; [reflexivity|]].
    + intros p Hp. destruct (H1 p Hp) as (h' & E & _). discriminate.
    + intros h E. congruence.
Qed.

(** On the topic path the previous child is ended and reaped before the
    next one is started: no child is alive after the guard, one after the
    construction of the new handle, and one when [topic_cb] returns. *)
Lemma topic_cb_one_child (data : string) (w : World) :
  one_player w ->
  exists w1 h w2,
    topic_cb_guard w = (Ok tt, w1) /\ alive (os w1) = 0%nat /\
    play_spawn data w1 = (h, w2) /\ alive (os w2) = 1%nat /\
    topic_cb data w = (Ok tt, play_bind h w2) /\
    alive (os (play_bind h w2)) = 1%nat /\
    one_player (play_bind h w2).
Proof.
  intros Hw.
  destruct (topic_cb_guard_ends_player w Hw) as (w1 & G & Hnone & _ & Hdone).
  exists w1, (fst (play_spawn data w1)), (snd (play_spawn data w1)).
  assert (A2 : alive (os (snd (play_spawn data w1))) = 1%nat).
  { unfold play_spawn.
    pose proof (spawn_alive (full_command (afp w1) data) (os w1)) as S.
    destruct (spawn (full_command (afp w1) data) (os w1)) as [h o] eqn:E.
    simpl in *. rewrite S, (none_alive_zero _ Hnone). reflexivity. }
  assert (B : os (play_bind (fst (play_spawn data w1)) (snd (play_spawn data w1)))
              = os (snd (play_spawn data w1))).
  { unfold play_bind, play_spawn. simpl.
    destruct (current_playing_process (afp w1)) as [old|] eqn:Hc; [|reflexivity].
    simpl. destruct (retcode old) as [c|] eqn:R.
    - rewrite (del_done old _ c R). reflexivity.
    - exfalso. apply (Hdone old eq_refl R). }
  split; [exact G|]. split; [apply none_alive_zero, Hnone|].
  split; [destruct (play_spawn data w1); reflexivity|]. split; [exact A2|].
  split.
  { unfold topic_cb. rewrite G. unfold play_audio_file.
    destruct (play_spawn data w1); reflexivity. }
  split; [rewrite B; exact A2|].
  split.
  - intros p. rewrite B. unfold play_spawn, spawn. simpl. intros Hp.
    eexists. split; [unfold play_bind; simpl; reflexivity|]. simpl.
    split; [|reflexivity].
    destruct (decide (p < length (procs (os w1)))%nat) as [Hlt|Hge].
    + rewrite lookup_app_l in Hp by exact Hlt. exfalso. exact (Hnone p Hp).
    + apply lookup_lt_Some in Hp. rewrite List.length_app in Hp. simpl in Hp. lia.
  - intros h. rewrite B. unfold play_bind, play_spawn, spawn. simpl.
    intros E. inversion E; subst. simpl. rewrite List.length_app. simpl. lia.
Qed.

Lemma one_player_world0 : one_player world0.
Proof. split; [intros p H; destruct p; discriminate|intros h H; discriminate]. Qed.

(** * Further properties *)

(** ** More on the handle *)

Lemma set_retcode_same (h : ShellCmd) : set_retcode (retcode h) h = h.
Proof. destruct h; reflexivity. Qed.

(** X1: a handle just built shows a running child; once the child has
    ended on its own with status [code], the first [get_retcode] reaps it
    and stores [code], after which the handle is done, and succeeded
    exactly when [code] is 0. *)
Theorem spawned_child_observed (c : string) (o : OS) (code : Z) :
  let '(h, o1) := spawn c o in
  let o2 := proc_exit (process h) code o1 in
  get_retcode h o1 = (None, h, o1) /\
  is_done h o1 = (false, h, o1) /\
  (exists h' o3,
     get_retcode h o2 = (Some code, h', o3) /\
     retcode h' = Some code /\
     procs o3 !! process h = Some (Reaped code) /\
     is_done h' o3 = (true, h', o3) /\
     is_succeeded h' o3 = (code =? 0, h', o3)).
Proof.
  unfold spawn. simpl.
  set (p := length (procs o)).
  assert (L : (procs o ++ [Running])%list !! p = Some Running).
  { unfold p. rewrite lookup_app_r by lia. rewrite Nat.sub_diag. reflexivity. }
  assert (Lt : (p < length (procs o ++ [Running])%list)%nat)
    by (eapply lookup_lt_Some; exact L).
  unfold get_retcode, is_done, get_retcode, poll, proc_exit. simpl.
  rewrite L. simpl. split; [reflexivity|]. split; [reflexivity|].
  rewrite list_lookup_insert_eq by exact Lt.
  eexists. eexists. split; [reflexivity|]. simpl.
  split; [reflexivity|].
  split; [rewrite list_lookup_insert_eq by (rewrite length_insert; exact Lt); reflexivity|].
  unfold is_succeeded, get_retcode. simpl. split; reflexivity.
Qed.

(** X2: while the child runs and no return code is stored, [get_retcode]
    returns [None], [is_done] and [is_succeeded] are false, and none of
    them changes the handle or the children. *)
Theorem running_child_not_done (h : ShellCmd) (o : OS) :
  retcode h = None -> procs o !! process h = Some Running ->
  get_retcode h o = (None, h, o) /\
  is_done h o = (false, h, o) /\
  is_succeeded h o = (false, h, o).
Proof.
  intros R P.
  assert (G : get_retcode h o = (None, h, o)).
  { unfold get_retcode, poll. rewrite R, P. rewrite <- R.
    rewrite set_retcode_same, R. reflexivity. }
  split; [exact G|]. unfold is_done, is_succeeded. rewrite G. split; reflexivity.
Qed.

Lemma running_child_not_done_witness :
  let h := mkShellCmd "play  'a.wav'" None 0 in
  let o := snd (spawn "play  'a.wav'" os0) in
  is_done h o = (false, h, o) /\ is_succeeded h o = (false, h, o).
Proof.
  destruct (running_child_not_done
              (mkShellCmd "play  'a.wav'" None 0)
              (snd (spawn "play  'a.wav'" os0)) eq_refl eq_refl)
    as (_ & H2 & H3).
  split; [exact H2|exact H3].
Defined.

(** X3: after [kill] the child of the handle is not alive, whatever it was;
    a running child is reaped with the status it leaves on SIGTERM, one
    that had ended is reaped with its own status, and the call returns;
    on a child already reaped no child changes, and the call returns when
    the group of the child still has a member and raises [OSError] when
    it has none; the other children are never touched. *)
Theorem kill_ends_own_child (h : ShellCmd) (o : OS) :
  let '(r, h', o') := kill h o in
  procs o' !! process h <> Some Running /\
  (r = Ok tt -> exists c, procs o' !! process h = Some (Reaped c)) /\
  (procs o !! process h = Some Running ->
   r = Ok tt /\ procs o' !! process h = Some (Reaped (term_status o (process h)))) /\
  (forall c, procs o !! process h = Some (Exited c) ->
   r = Ok tt /\ procs o' !! process h = Some (Reaped c)) /\
  ((exists c, procs o !! process h = Some (Reaped c)) ->
   o' = o /\
   r = if group_left o (process h) then Ok tt else Raise OSError) /\
  (forall q, q <> process h -> procs o' !! q = procs o !! q) /\
  length (procs o') = length (procs o).
Proof.
  unfold kill.
  destruct (procs o !! process h) as [[|c|c]|] eqn:P;
    [| |destruct (group_left o (process h))|]; simpl.
  - assert (Lt := lookup_lt_Some _ _ _ P).
    rewrite list_lookup_insert_eq by exact Lt.
    split; [discriminate|]. split; [eauto|]. split; [auto|].
    split; [intros c F; discriminate|].
    split; [intros [c F]; discriminate|].
    split; [intros q Hq; apply list_lookup_insert_ne; congruence|apply length_insert].
  - assert (Lt := lookup_lt_Some _ _ _ P).
    rewrite list_lookup_insert_eq by exact Lt.
    split; [discriminate|]. split; [eauto|]. split; [discriminate|].
    split; [intros c' F; inversion F; auto|].
    split; [intros [c' F]; discriminate|].
    split; [intros q Hq; apply list_lookup_insert_ne; congruence|apply length_insert].
  - split; [congruence|]. split; [eauto|]. split; [congruence|].
    split; [congruence|]. split; [auto|]. split; reflexivity.
  - split; [congruence|]. split; [discriminate|]. split; [congruence|].
    split; [congruence|]. split; [auto|]. split; reflexivity.
  - split; [congruence|]. split; [discriminate|]. split; [congruence|].
    split; [congruence|]. split; [intros [c F]; discriminate|]. split; reflexivity.
Qed.

(** X4: the finalizer of a handle that holds a return code only for a
    child that has ended leaves that child not alive, and touches no other
    child. *)
Theorem del_ends_own_child (h : ShellCmd) (o : OS) :
  (retcode h <> None -> procs o !! process h <> Some Running) ->
  procs (del h o) !! process h <> Some Running /\
  (forall q, q <> process h -> procs (del h o) !! q = procs o !! q) /\
  length (procs (del h o)) = length (procs o).
Proof.
  intros Hs. unfold del, is_done, get_retcode.
  destruct (retcode h) as [c|] eqn:R.
  - split; [apply Hs; discriminate|]. split; reflexivity.
  - unfold poll. destruct (procs o !! process h) as [[|c|c]|] eqn:P;
      unfold kill; simpl; rewrite ?P; simpl.
    + rewrite list_lookup_insert_eq by (eapply lookup_lt_Some; exact P).
      split; [discriminate|].
      split; [intros q Hq; apply list_lookup_insert_ne; congruence|apply length_insert].
    + rewrite list_lookup_insert_eq by (eapply lookup_lt_Some; exact P).
      split; [discriminate|].
      split; [intros q Hq; apply list_lookup_insert_ne; congruence|apply length_insert].
    + split; [discriminate|]. split; reflexivity.
    + split; [discriminate|]. split; reflexivity.
Qed.

Lemma del_ends_own_child_witness :
  let h := fst (spawn "play  'a.wav'" os0) in
  let o := snd (spawn "play  'a.wav'" os0) in
  procs (del h o) !! process h <> Some Running /\
  (forall q, q <> process h -> procs (del h o) !! q = procs o !! q) /\
  length (procs (del h o)) = length (procs o).
Proof.
  apply (del_ends_own_child
           (fst (spawn "play  'a.wav'" os0)) (snd (spawn "play  'a.wav'" os0))).
  intros F. exfalso. apply F. reflexivity.
Defined.

(** ** More on the sanitized path *)

Lemma remove_char_absent c (s : string) :
  count (fun a => Ascii.eqb a c) s = 0%nat -> remove_char c s = s.
Proof.
  induction s as [|a s IH]; simpl; [reflexivity|].
  destruct (Ascii.eqb a c); [discriminate|].
  intros H. rewrite IH by exact H. reflexivity.
Qed.

Lemma remove_char_length c (s : string) :
  (String.length (remove_char c s)
   + count (fun a => Ascii.eqb a c) s = String.length s)%nat.
Proof.
  induction s as [|a s IH]; simpl; [reflexivity|].
  destruct (Ascii.eqb a c); simpl; lia.
Qed.

Lemma count_quotes (s : string) :
  count is_quote s
  = (count (fun a => Ascii.eqb a "'") s
     + count (fun a => Ascii.eqb a dquote) (remove_char "'" s))%nat.
Proof.
  induction s as [|a s IH]; simpl; [reflexivity|]. unfold is_quote at 1.
  destruct (Ascii.eqb_spec a "'") as [->|N]; simpl.
  - rewrite IH. reflexivity.
  - destruct (Ascii.eqb a dquote); rewrite IH; lia.
Qed.

(** X5: the sanitizing of [play_audio_file] works character by character
    (it distributes over concatenation), is idempotent, shortens the path
    by exactly the number of its quote characters, and leaves a path
    unchanged exactly when it has no quote character. *)
Theorem sanitize_removes_only_quotes (p q : string) :
  sanitize (p ++ q) = sanitize p ++ sanitize q /\
  sanitize (sanitize p) = sanitize p /\
  (String.length (sanitize p) + count is_quote p = String.length p)%nat /\
  (count is_quote p = 0%nat <-> sanitize p = p).
Proof.
  assert (L : (String.length (sanitize p) + count is_quote p = String.length p)%nat).
  { unfold sanitize. rewrite count_quotes.
    pose proof (remove_char_length dquote (remove_char "'" p)).
    pose proof (remove_char_length "'" p). lia. }
  assert (F : forall s, count is_quote s = 0%nat -> sanitize s = s).
  { intros s H. rewrite count_quotes in H. unfold sanitize.
    assert (E : remove_char "'" s = s) by (apply remove_char_absent; lia).
    rewrite E in *. apply remove_char_absent. lia. }
  split; [unfold sanitize; rewrite !remove_char_app; reflexivity|].
  split; [apply F, sanitize_no_quote|]. split; [exact L|].
  split; [apply F|]. intros E. rewrite E in L. lia.
Qed.

(** ** More on the volume read *)

Lemma substring_none (n : nat) (s : string) : substring n 0 s = EmptyString.
Proof.
  revert n. induction s as [|a s IH]; intros [|n]; simpl; auto.
Qed.

(** X6: when the first percent sign is among the first three characters
    of a mixer text of three characters or more, the slice start is
    negative and counts from the end, the window is empty and
    [get_current_volume] raises [ValueError]. *)
Theorem percent_near_start_raises (output : string) (i : nat) :
  index "%" output = Some i -> (i < 3)%nat -> (3 <= String.length output)%nat ->
  get_current_volume output = Raise ValueError.
Proof.
  intros Hi Hlt Hlen. unfold get_current_volume. rewrite Hi.
  assert (E : slice output (Z.of_nat i - 3) (Z.of_nat i) = EmptyString).
  { unfold slice, slice_bound.
    destruct (Z.ltb_spec (Z.of_nat i - 3) 0); [|lia].
    destruct (Z.ltb_spec (Z.of_nat i) 0); [lia|].
    match goal with
    | |- substring _ (Z.to_nat ?d) _ = _ =>
        replace (Z.to_nat d) with 0%nat by lia
    end.
    apply substring_none. }
  rewrite E. reflexivity.
Qed.

Lemma percent_near_start_raises_witness :
  get_current_volume "51%" = Raise ValueError.
Proof.
  apply (percent_near_start_raises "51%" 2); [reflexivity|lia|simpl; lia].
Defined.

Lemma substring_length (n m : nat) (s : string) :
  (String.length (substring n m s) <= m)%nat.
Proof.
  revert n m. induction s as [|a s IH]; intros [|n] [|m]; simpl; try lia.
  - specialize (IH 0%nat m). lia.
  - apply (IH n 0%nat).
  - apply (IH n (S m)).
Qed.

Lemma lstrip_length (s : string) :
  (String.length (lstrip s) <= String.length s)%nat.
Proof.
  induction s as [|a s IH]; simpl; [lia|].
  destruct (is_space a); simpl; lia.
Qed.

Lemma length_list_ascii (s : string) :
  List.length (list_ascii_of_string s) = String.length s.
Proof. induction s; simpl; congruence. Qed.

Lemma length_of_list_ascii (l : list ascii) :
  String.length (string_of_list_ascii l) = List.length l.
Proof. induction l; simpl; congruence. Qed.

Lemma string_rev_length (s : string) : String.length (rev s) = String.length s.
Proof.
  unfold rev. rewrite length_of_list_ascii, List.length_rev.
  apply length_list_ascii.
Qed.

Lemma strip_length (s : string) :
  (String.length (strip s) <= String.length s)%nat.
Proof.
  unfold strip, rstrip. rewrite string_rev_length.
  pose proof (lstrip_length (rev (lstrip s))) as H.
  rewrite string_rev_length in H. pose proof (lstrip_length s). lia.
Qed.

Lemma digit_value_range (a : ascii) :
  is_digit a = true -> 0 <= digit_value a <= 9.
Proof.
  unfold is_digit, digit_value. intros H.
  apply andb_prop in H as [H1 H2].
  apply Nat.leb_le in H1, H2. lia.
Qed.

Lemma digits_bound (s : string) : forall acc seen v,
  digits acc seen s = Some v -> 0 <= acc ->
  acc <= v /\ v + 1 <= (acc + 1) * 10 ^ Z.of_nat (String.length s).
Proof.
  induction s as [|a s IH]; intros acc seen v; simpl String.length.
  - simpl. destruct seen; [|discriminate]. intros E _. inversion E. lia.
  - rewrite Nat2Z.inj_succ, Z.pow_succ_r by lia.
    assert (P : 0 < 10 ^ Z.of_nat (String.length s)) by (apply Z.pow_pos_nonneg; lia).
    simpl. destruct (is_digit a) eqn:D.
    + intros E Ha. pose proof (digit_value_range a D).
      destruct (IH _ _ _ E) as [H1 H2]; [lia|]. split; [lia|nia].
    + destruct (Ascii.eqb a "_" && seen); [|discriminate].
      intros E Ha. destruct (IH _ _ _ E Ha) as [H1 H2]. split; [lia|nia].
Qed.

Lemma pow10_le (n m : nat) : (n <= m)%nat -> 10 ^ Z.of_nat n <= 10 ^ Z.of_nat m.
Proof. intros H. apply Z.pow_le_mono_r; lia. Qed.

Lemma int_bound (s : string) (v : Z) :
  (String.length s <= 3)%nat -> int s = Some v -> -99 <= v <= 999.
Proof.
  intros L. rewrite int_cases. pose proof (strip_length s) as S.
  destruct (strip s) as [|a r]; [discriminate|]. simpl in S.
  assert (Lr : (String.length r <= 2)%nat) by lia.
  pose proof (pow10_le _ _ Lr) as P2. change (10 ^ Z.of_nat 2) with 100 in P2.
  destruct (Ascii.eqb a "+").
  - intros E. destruct (digits_bound _ _ _ _ E) as [H1 H2]; lia.
  - destruct (Ascii.eqb a "-").
    + destruct (digits 0 false r) as [u|] eqn:E; [|discriminate].
      simpl. intros F. inversion F; subst.
      destruct (digits_bound _ _ _ _ E) as [H1 H2]; lia.
    + intros E. destruct (digits_bound _ _ _ _ E) as [H1 H2]; [lia|].
      assert (L3 : (String.length (String a r) <= 3)%nat) by (simpl; lia).
      pose proof (pow10_le _ _ L3) as P3. change (10 ^ Z.of_nat 3) with 1000 in P3.
      lia.
Qed.

(** X7: a volume returned by [get_current_volume] lies between -99 and
    999: at most three characters are parsed. *)
Theorem volume_read_bounded (output : string) (v : Z) :
  get_current_volume output = Ok v -> -99 <= v <= 999.
Proof.
  unfold get_current_volume. destruct (index "%" output) as [i|]; [|discriminate].
  set (t := strip (remove_char "[" (slice output (Z.of_nat i - 3) (Z.of_nat i)))).
  destruct (int t) as [u|] eqn:E; [|discriminate].
  intros F. inversion F; subst u. apply (int_bound t); [|exact E].
  unfold t. pose proof (strip_length (remove_char "[" (slice output (Z.of_nat i - 3) (Z.of_nat i)))).
  pose proof (remove_char_length "[" (slice output (Z.of_nat i - 3) (Z.of_nat i))).
  assert ((String.length (slice output (Z.of_nat i - 3) (Z.of_nat i)) <= 3)%nat).
  { unfold slice.
    match goal with
    | |- (String.length (substring ?n ?m ?s) <= 3)%nat =>
        pose proof (substring_length n m s);
        assert ((m <= 3)%nat); [|lia]
    end.
    unfold slice_bound.
    destruct (Z.ltb_spec (Z.of_nat i - 3) 0); destruct (Z.ltb_spec (Z.of_nat i) 0); lia. }
  lia.
Qed.

Lemma volume_read_bounded_witness :
  get_current_volume amixer_output = Ok 51 /\ -99 <= 51 <= 999.
Proof.
  split; [reflexivity|].
  exact (volume_read_bounded amixer_output 51 eq_refl).
Defined.

(** ** More on the subscription gate *)

Lemma gate_timer_join (w : World) :
  gate_ok w -> gate_timer_only w -> gate_timer_only (peer_subscribe w).
Proof.
  intros [H1 H2] T. unfold peer_subscribe, gate_timer_only in *.
  destruct (Z.eqb_spec (num_peers w) 0) as [E|E]; simpl; [|exact T].
  unfold enable_volume_service.
  destruct (volume_timer (afp w)) eqn:V; simpl.
  - rewrite V. exact T.
  - rewrite T. reflexivity.
Qed.

Lemma gate_timer_leave (n : Z) (w : World) :
  gate_timer_only w -> gate_timer_only (peer_unsubscribe n w).
Proof.
  intros T. unfold peer_unsubscribe, gate_timer_only in *.
  destruct (Z.eqb_spec n 0) as [E|E]; simpl; [|exact T].
  unfold disable_volume_servce. simpl.
  destruct (volume_timer (afp w)) eqn:V; simpl.
  - rewrite T. simpl. rewrite Nat.eqb_refl. reflexivity.
  - rewrite V. exact T.
Qed.

(** X8: along every sequence of joins and leaves whose reported counts are
    sound, starting from a gate whose timer is the only live one, the
    volume timer is kept exactly while the listener counts peers, and one
    timer is live then and none otherwise. *)
Theorem gate_follows_peers (es : list gate_event) (w : World) :
  gate_ok w -> gate_timer_only w -> gate_wf (num_peers w) es = true ->
  let w' := gate_run es w in
  (volume_timer (afp w') <> None <-> 0 < num_peers w') /\
  length (live_timers (ros w')) = (if 0 <? num_peers w' then 1%nat else 0%nat).
Proof.
  revert w. induction es as [|e es IH]; intros w G T W.
  - simpl. destruct G as [G1 G2]. split; [exact G1|].
    rewrite T. destruct (volume_timer (afp w)) eqn:V.
    + assert (0 < num_peers w) by (apply G1; discriminate).
      destruct (Z.ltb_spec 0 (num_peers w)); [reflexivity|lia].
    + destruct (Z.ltb_spec 0 (num_peers w)); [|reflexivity].
      exfalso. apply G1; [assumption|reflexivity].
  - destruct e as [|n]; simpl in W |- *.
    + apply IH.
      * apply peer_subscribe_gate, G.
      * apply gate_timer_join; assumption.
      * assert (E : num_peers (peer_subscribe w) = num_peers w + 1).
        { unfold peer_subscribe. destruct (num_peers w =? 0); [|reflexivity].
          unfold enable_volume_service.
          destruct (volume_timer (afp w)); reflexivity. }
        rewrite E. exact W.
    + apply andb_prop in W as [W W3]. apply andb_prop in W as [W1 W2].
      apply Z.leb_le in W1. apply Z.ltb_lt in W2.
      apply IH.
      * apply peer_unsubscribe_gate; [exact G|exact W1|lia].
      * apply gate_timer_leave, T.
      * assert (E : num_peers (peer_unsubscribe n w) = n).
        { unfold peer_unsubscribe. destruct (n =? 0); [|reflexivity].
          unfold disable_volume_servce. simpl.
          destruct (volume_timer (afp w)); reflexivity. }
        rewrite E. exact W3.
Qed.

Lemma gate_ok_world0 : gate_ok world0.
Proof. unfold gate_ok. simpl. split; [split; [intros F; congruence|lia]|lia]. Qed.

Lemma gate_follows_peers_witness :
  let w' := gate_run [Join; Join; Leave 1; Leave 0; Join] world0 in
  (volume_timer (afp w') <> None <-> 0 < num_peers w') /\
  length (live_timers (ros w')) = (if 0 <? num_peers w' then 1%nat else 0%nat).
Proof.
  exact (gate_follows_peers [Join; Join; Leave 1; Leave 0; Join] world0
           gate_ok_world0 eq_refl eq_refl).
Defined.

(** ** More on the topic path *)

(** X9: on the topic path, when only the current child can be alive, the
    guard leaves no child alive, the construction of the new handle one,
    and [topic_cb] returns normally with that child running the command
    line of the requested file as the current process. *)
Theorem topic_cb_ends_previous_first (data : string) (w : World) :
  one_player w ->
  exists w1 h w2,
    topic_cb_guard w = (Ok tt, w1) /\ alive (os w1) = 0%nat /\
    play_spawn data w1 = (h, w2) /\ alive (os w2) = 1%nat /\
    topic_cb data w = (Ok tt, play_bind h w2) /\
    alive (os (play_bind h w2)) = 1%nat /\
    current_playing_process (afp (play_bind h w2)) = Some h /\
    cmd h = full_command (afp w) data /\
    procs (os (play_bind h w2)) !! process h = Some Running.
Proof.
  intros Hw.
  destruct (topic_cb_one_child data w Hw)
    as (w1 & h & w2 & G & A0 & S & A1 & T & A2 & (I1 & I2)).
  exists w1, h, w2. repeat (split; [assumption|]).
  assert (C : current_playing_process (afp (play_bind h w2)) = Some h)
    by reflexivity.
  split; [exact C|]. split.
  - unfold play_spawn, spawn in S. inversion S; subst. simpl.
    unfold topic_cb_guard in G.
    destruct (current_playing_process (afp w)) as [h0|].
    + destruct (is_done h0 (os w)) as [[d h1] o1].
      destruct d; [inversion G; reflexivity|].
      destruct (kill h1 o1) as [[r h2] o2]. inversion G. reflexivity.
    + inversion G. reflexivity.
  - assert (Al : alive (os (play_bind h w2)) = 1%nat) by exact A2.
    unfold alive in Al.
    destruct (List.filter is_running (procs (os (play_bind h w2)))) as [|x l] eqn:F;
      [discriminate|].
    assert (Hin : In x (List.filter is_running (procs (os (play_bind h w2)))))
      by (rewrite F; left; reflexivity).
    apply List.filter_In in Hin as [Hin Hr]. destruct x; try discriminate.
    apply list_elem_of_In, list_elem_of_lookup in Hin as [p Hp].
    destruct (I1 p Hp) as (h' & Hc & <- & _). congruence.
Qed.

Lemma topic_cb_ends_previous_first_witness :
  exists w1 h w2,
    topic_cb_guard (snd (topic_cb "a.wav" world0)) = (Ok tt, w1) /\
    alive (os w1) = 0%nat /\
    play_spawn "b.wav" w1 = (h, w2) /\ alive (os w2) = 1%nat /\
    topic_cb "b.wav" (snd (topic_cb "a.wav" world0)) = (Ok tt, play_bind h w2) /\
    alive (os (play_bind h w2)) = 1%nat /\
    current_playing_process (afp (play_bind h w2)) = Some h /\
    cmd h = full_command (afp (snd (topic_cb "a.wav" world0))) "b.wav" /\
    procs (os (play_bind h w2)) !! process h = Some Running.
Proof.
  apply (topic_cb_ends_previous_first "b.wav" (snd (topic_cb "a.wav" world0))).
  split.
  - intros [|[|p]] H; try discriminate H.
    eexists. split; [reflexivity|]. split; reflexivity.
  - intros h H. inversion H. simpl. lia.
Defined.

Lemma one_player_proc_exit (p : nat) (c : Z) (w : World) :
  one_player w -> one_player (set_os (proc_exit p c (os w)) w).
Proof.
  intros [H1 H2]. unfold proc_exit.
  destruct (procs (os w) !! p) as [[| |]|] eqn:P;
    try (destruct w as [o r a n]; exact (conj H1 H2)).
  split; simpl.
  - intros q Hq. destruct (decide (p = q)) as [->|Hne].
    + rewrite list_lookup_insert_eq in Hq by (eapply lookup_lt_Some; exact P).
      discriminate.
    + rewrite list_lookup_insert_ne in Hq by exact Hne. exact (H1 q Hq).
  - intros h Hc. rewrite length_insert. exact (H2 h Hc).
Qed.

Lemma one_running_at_most (l : list pstate) :
  (forall p q, l !! p = Some Running -> l !! q = Some Running -> p = q) ->
  (length (List.filter is_running l) <= 1)%nat.
Proof.
  induction l as [|x l IH]; intros H; simpl; [lia|].
  destruct x; simpl.
  - rewrite filter_none_running; [simpl; lia|].
    intros p Hp. specialize (H 0%nat (S p) eq_refl Hp). discriminate.
  - apply IH. intros p q Hp Hq. specialize (H (S p) (S q) Hp Hq). lia.
  - apply IH. intros p q Hp Hq. specialize (H (S p) (S q) Hp Hq). lia.
Qed.

Lemma one_player_alive (w : World) : one_player w -> (alive (os w) <= 1)%nat.
Proof.
  intros [H1 _]. apply one_running_at_most. intros p q Hp Hq.
  destruct (H1 p Hp) as (h & Hc & <- & _).
  destruct (H1 q Hq) as (h' & Hc' & <- & _). congruence.
Qed.

(** X10: along every sequence of play messages and of children ending on
    their own, from a state where only the current child can be alive, no
    callback raises, at most one child is alive, and a child that is
    alive is the one of the current handle. *)
Theorem topic_requests_one_child (es : list topic_event) (w : World) :
  one_player w ->
  fst (topic_run es w) = true /\
  (alive (os (snd (topic_run es w))) <= 1)%nat /\
  (forall p, procs (os (snd (topic_run es w))) !! p = Some Running ->
     exists h, current_playing_process (afp (snd (topic_run es w))) = Some h /\
               process h = p).
Proof.
  intros Hw.
  assert (G : forall es b w, one_player w ->
              fst (fold_left
                     (fun bw e =>
                        let '(r, w') := topic_exec (snd bw) e in
                        (fst bw && match r with Ok _ => true | Raise _ => false end, w'))
                     es (b, w)) = b /\
              one_player (snd (fold_left
                     (fun bw e =>
                        let '(r, w') := topic_exec (snd bw) e in
                        (fst bw && match r with Ok _ => true | Raise _ => false end, w'))
                     es (b, w)))).
  { clear. induction es as [|e es IH]; intros b w Hw; [split; [reflexivity|exact Hw]|].
    simpl. destruct e as [data|p c]; simpl.
    - destruct (topic_cb_one_child data w Hw)
        as (w1 & h & w2 & _ & _ & _ & _ & T & _ & I).
      rewrite T. rewrite andb_true_r. apply IH, I.
    - rewrite andb_true_r. apply IH, one_player_proc_exit, Hw. }
  destruct (G es true w Hw) as [G1 G2]. fold (topic_run es w) in G1, G2.
  split; [exact G1|]. split; [apply one_player_alive, G2|].
  intros p Hp. destruct G2 as [G2 _].
  destruct (G2 p Hp) as (h & Hc & E & _). eauto.
Qed.

Lemma topic_requests_one_child_witness :
  fst (topic_run [Play "a.wav"; Play "b.wav"; ChildExit 1 0; Play "c.wav"] world0)
    = true /\
  (alive (os (snd (topic_run [Play "a.wav"; Play "b.wav"; ChildExit 1 0;
                              Play "c.wav"] world0))) <= 1)%nat.
Proof.
  destruct (topic_requests_one_child
              [Play "a.wav"; Play "b.wav"; ChildExit 1 0; Play "c.wav"] world0
              one_player_world0) as (H1 & H2 & _).
  split; [exact H1|exact H2].
Defined.

(** ** More on the volume ticks *)

Lemma reads_snoc (outs : list string) (out : string) :
  reads (outs ++ [out])
  = (reads outs ++ match get_current_volume out with
                   | Ok v => [v]
                   | Raise _ => []
                   end)%list.
Proof. unfold reads. rewrite flat_map_app. simpl. rewrite app_nil_r. reflexivity. Qed.

(** X11: along every sequence of timer ticks the values published are the
    values read from the texts that could be read and that an [Int8]
    message can carry, in order; the stored volume is the last value read
    (or the previous one if none); children, timers and the current
    process are not touched. *)
Theorem ticks_publish_what_they_store (outs : list string) (w : World) :
  published (ros (ticks outs w))
    = (published (ros w) ++ List.filter int8 (reads outs))%list /\
  curr_vol (afp (ticks outs w)) = List.last (reads outs) (curr_vol (afp w)) /\
  os (ticks outs w) = os w /\
  live_timers (ros (ticks outs w)) = live_timers (ros w) /\
  current_playing_process (afp (ticks outs w))
    = current_playing_process (afp w).
Proof.
  induction outs as [|out outs IH] using rev_ind.
  - simpl. rewrite app_nil_r. repeat split; reflexivity.
  - destruct IH as (I1 & I2 & I3 & I4 & I5).
    unfold ticks in *. rewrite fold_left_app.
    set (w1 := fold_left (fun w out => snd (curr_vol_cb out w)) outs w) in *.
    simpl fold_left. rewrite reads_snoc, List.filter_app.
    unfold curr_vol_cb. destruct (get_current_volume out) as [v|e].
    + unfold publish_volume. cbn [ros set_afp List.filter].
      rewrite List.last_last.
      destruct (int8 v); [|destruct (connected (ros w1))]; simpl;
        rewrite ?I1, ?I3, ?I4, ?I5, <- ?app_assoc, ?app_nil_r;
        repeat split; reflexivity.
    + simpl. rewrite !app_nil_r. repeat split; assumption.
Qed.

(** ** More on the cancel callback *)

(** X12: when the child of the current handle has already been reaped, the
    cancel callback still stores -1 in the handle, which is not succeeded
    from then on, and changes no child; it reports the preemption when
    [os.killpg] is accepted, and reports nothing when [os.killpg] raises
    because the group is gone. *)
Theorem cancel_of_finished_player (w : World) (h : ShellCmd) (c : Z) :
  current_playing_process (afp w) = Some h ->
  procs (os w) !! process h = Some (Reaped c) ->
  let '(r, w') := as_preempt_cb w in
  os w' = os w /\
  current_playing_process (afp w') = Some (set_retcode (Some (-1)) h) /\
  is_succeeded (set_retcode (Some (-1)) h) (os w')
    = (false, set_retcode (Some (-1)) h, os w') /\
  (if group_left (os w) (process h)
   then r = Ok tt /\
        results (ros w') = (results (ros w) ++ [Preempted cancel_text])%list
   else r = Raise OSError /\ results (ros w') = results (ros w)).
Proof.
  intros Hc P. unfold as_preempt_cb, kill. rewrite Hc, P.
  destruct (group_left (os w) (process h)); simpl; repeat split; reflexivity.
Qed.

Lemma cancel_of_finished_player_witness :
  let w := world (run [Step; Step; Step; ProcExit 0 0; Step]
                      (session_start "a.wav" world0)) in
  let h := mkShellCmd "play  'a.wav'" (Some 0) 0 in
  let '(r, w') := as_preempt_cb w in
  os w' = os w /\
  current_playing_process (afp w') = Some (set_retcode (Some (-1)) h) /\
  is_succeeded (set_retcode (Some (-1)) h) (os w')
    = (false, set_retcode (Some (-1)) h, os w') /\
  (r = Raise OSError /\ results (ros w') = results (ros w)).
Proof.
  exact (cancel_of_finished_player
           (world (run [Step; Step; Step; ProcExit 0 0; Step]
                       (session_start "a.wav" world0)))
           (mkShellCmd "play  'a.wav'" (Some 0) 0) 0 eq_refl eq_refl).
Defined.

(** ** More on the session *)

Lemma poll_clock (p : nat) (o : OS) : clock (snd (poll p o)) = clock o.
Proof. unfold poll. destruct (procs o !! p) as [[| |]|]; reflexivity. Qed.

Lemma get_retcode_clock (h : ShellCmd) (o : OS) :
  clock (snd (get_retcode h o)) = clock o.
Proof.
  unfold get_retcode. destruct (retcode h); [reflexivity|].
  pose proof (poll_clock (process h) o) as P.
  destruct (poll (process h) o). exact P.
Qed.

Lemma is_done_clock (h : ShellCmd) (o : OS) :
  clock (snd (is_done h o)) = clock o.
Proof.
  unfold is_done. pose proof (get_retcode_clock h o) as G.
  destruct (get_retcode h o) as [[r h1] o1]. exact G.
Qed.

Lemma is_succeeded_clock (h : ShellCmd) (o : OS) :
  clock (snd (is_succeeded h o)) = clock o.
Proof.
  unfold is_succeeded. pose proof (get_retcode_clock h o) as G.
  destruct (get_retcode h o) as [[r h1] o1]. exact G.
Qed.

Lemma kill_clock (h : ShellCmd) (o : OS) : clock (snd (kill h o)) = clock o.
Proof.
  unfold kill. destruct (procs o !! process h) as [[| |]|];
    [| |destruct (group_left o (process h))|]; reflexivity.
Qed.

Lemma del_clock (h : ShellCmd) (o : OS) : clock (del h o) = clock o.
Proof.
  unfold del. pose proof (is_done_clock h o) as D.
  destruct (is_done h o) as [[d h1] o1]. simpl in D.
  destruct d; [exact D|].
  pose proof (kill_clock h1 o1) as K.
  destruct (kill h1 o1) as [[x y] o2]. simpl in K. congruence.
Qed.

Lemma sorted_snoc (l : list Z) (x : Z) :
  StronglySorted Z.le l -> Forall (fun a => a <= x) l ->
  StronglySorted Z.le (l ++ [x]).
Proof.
  induction 1 as [|a l S IH F]; intros H; simpl.
  - constructor; constructor.
  - inversion H; subst. constructor; [apply IH; assumption|].
    apply Forall_app. split; [exact F|]. constructor; [assumption|constructor].
Qed.

Lemma feedback_ok_step (s : session) : feedback_ok s -> feedback_ok (as_cb_step s).
Proof.
  destruct s as [w p g t0 t1 sp]. unfold feedback_ok, as_cb_step. simpl.
  destruct p; simpl.
  - intros ->. split; [lia|]. split; constructor.
  - intros H. exact H.
  - intros (C & F & S). destruct sp as [h|]; simpl; [|auto].
    unfold play_bind. simpl.
    assert (E : clock match current_playing_process (afp w) with
                      | Some old => del old (os w)
                      | None => os w
                      end = clock (os w)).
    { destruct (current_playing_process (afp w)); [apply del_clock|reflexivity]. }
    rewrite E. auto.
  - intros (C & F & S). destruct (is_shutdown (os w)); simpl; [auto|].
    destruct (current_playing_process (afp w)) as [h|]; simpl; [|auto].
    pose proof (is_done_clock h (os w)) as D.
    destruct (is_done h (os w)) as [[d h1] o1]. simpl in D.
    destruct d; simpl; rewrite D; auto.
  - intros (C & F & S). split; [exact C|]. split.
    + apply Forall_app. split; [exact F|]. constructor; [lia|constructor].
    + apply sorted_snoc; [exact S|].
      eapply List.Forall_impl; [|exact F]. simpl. intros a Ha. lia.
  - intros H. exact H.
  - intros H. exact H.
  - intros (C & F & S).
    destruct (current_playing_process (afp w)) as [h|]; simpl; [|auto].
    pose proof (is_succeeded_clock h (os w)) as D.
    destruct (is_succeeded h (os w)) as [[d h1] o1]. simpl in D.
    destruct d; simpl; rewrite D; auto.
  - intros H. exact H.
  - intros H. destruct (preempt_requested (ros w)); exact H.
  - intros H. destruct (current_playing_process (afp w)); exact H.
  - intros H. exact H.
Qed.

Lemma cancel_clock (w : World) : clock (os (cancel w)) = clock (os w).
Proof.
  unfold cancel, as_preempt_cb. simpl.
  destruct (current_playing_process (afp w)) as [h|]; [|reflexivity].
  pose proof (kill_clock h (os w)) as K.
  destruct (kill h (os w)) as [[r h1] o1]. simpl in K.
  destruct r; simpl; exact K.
Qed.

Lemma cancel_feedback (w : World) : feedback (ros (cancel w)) = feedback (ros w).
Proof.
  unfold cancel, as_preempt_cb. simpl.
  destruct (current_playing_process (afp w)) as [h|]; [|reflexivity].
  destruct (kill h (os w)) as [[r h1] o1]. destruct r; reflexivity.
Qed.

Lemma as_cb_step_clock (s : session) :
  clock (os (world (as_cb_step s))) = clock (os (world s)).
Proof.
  destruct s as [w p g t0 t1 sp]. unfold as_cb_step. simpl.
  destruct p; simpl; try reflexivity.
  - destruct sp; simpl; [|reflexivity]. unfold play_bind. simpl.
    destruct (current_playing_process (afp w)); [apply del_clock|reflexivity].
  - destruct (is_shutdown (os w)); [reflexivity|].
    destruct (current_playing_process (afp w)) as [h|]; [|reflexivity].
    pose proof (is_done_clock h (os w)) as D.
    destruct (is_done h (os w)) as [[d h1] o1]. destruct d; exact D.
  - destruct (current_playing_process (afp w)) as [h|]; [|reflexivity].
    pose proof (is_succeeded_clock h (os w)) as D.
    destruct (is_succeeded h (os w)) as [[d h1] o1]. destruct d; exact D.
  - destruct (preempt_requested (ros w)); reflexivity.
  - destruct (current_playing_process (afp w)); reflexivity.
Qed.

Lemma feedback_ok_run (es : list event) (s : session) :
  clock_monotone (clock (os (world s))) es = true ->
  feedback_ok s -> feedback_ok (run es s).
Proof.
  revert s. induction es as [|e es IH]; intros s M H; [exact H|].
  change (run (e :: es) s) with (run es (exec s e)).
  destruct e as [|t|q c| |]; simpl in M.
  - change (exec s Step) with (as_cb_step s).
    apply IH; [rewrite as_cb_step_clock; exact M|apply feedback_ok_step, H].
  - apply andb_prop in M as [M1 M2]. apply Z.leb_le in M1.
    apply IH; [exact M2|].
    destruct s as [w p g t0 t1 sp]. unfold feedback_ok in *. simpl in *.
    destruct p; try exact H;
      (destruct H as (C & F & S); split; [lia|]; split; [|exact S];
       eapply List.Forall_impl; [|exact F]; simpl; intros a Ha; lia).
  - apply IH.
    + simpl. unfold proc_exit.
      destruct (procs (os (world s)) !! q) as [[| |]|]; exact M.
    + destruct s as [w p g t0 t1 sp]. unfold feedback_ok in *. simpl in *.
      assert (E : clock (proc_exit q c (os w)) = clock (os w)).
      { unfold proc_exit. destruct (procs (os w) !! q) as [[| |]|]; reflexivity. }
      rewrite E. exact H.
  - apply IH; [exact M|].
    destruct s as [w p g t0 t1 sp]. exact H.
  - apply IH.
    + simpl. rewrite cancel_clock. exact M.
    + destruct s as [w p g t0 t1 sp]. unfold feedback_ok in *. simpl in *.
      rewrite cancel_clock, cancel_feedback. exact H.
Qed.

(** X14: when the clock never goes back, the elapsed times sent as
    feedback never decrease, none is negative, and none exceeds the time
    elapsed since [initial_time]. *)
Theorem feedback_never_decreases (g : string) (w0 : World) (es : list event) :
  clock_monotone (clock (os w0)) es = true ->
  let s := run es (session_start g w0) in
  StronglySorted Z.le (feedback (ros (world s))) /\
  Forall (fun e => 0 <= e) (feedback (ros (world s))) /\
  (at_pc s <> AsInit ->
   Forall (fun e => e <= clock (os (world s)) - initial_time s)
          (feedback (ros (world s)))).
Proof.
  intros M s.
  assert (H : feedback_ok s).
  { apply feedback_ok_run; [exact M|reflexivity]. }
  unfold feedback_ok in H.
  destruct (at_pc s) eqn:P;
    try (destruct H as (C & F & S); split; [exact S|]; split;
         [eapply List.Forall_impl; [|exact F]; simpl; intros a Ha; lia|];
         intros _; eapply List.Forall_impl; [|exact F]; simpl; intros a Ha; lia).
  rewrite H. split; [constructor|]. split; [constructor|]. intros F. congruence.
Qed.

Lemma feedback_never_decreases_witness :
  let s := run [Tick 1000; Step; Step; Step; Step; Tick 1001; Step; Step; Step;
                Tick 1004; Step] (session_start "a.wav" world0) in
  feedback (ros (world s)) = [1; 4] /\
  StronglySorted Z.le (feedback (ros (world s))).
Proof.
  split; [reflexivity|].
  exact (proj1 (feedback_never_decreases "a.wav" world0
                  [Tick 1000; Step; Step; Step; Step; Tick 1001; Step; Step; Step;
                   Tick 1004; Step] eq_refl)).
Defined.

Lemma own_results_snoc (r : Ros) (x : outcome) :
  own_results (set_result x r)
  = (own_results r ++ if is_preempted x then [] else [x])%list.
Proof.
  unfold own_results. simpl. rewrite List.filter_app. simpl.
  destruct (is_preempted x); reflexivity.
Qed.

Lemma cancel_own_results (w : World) :
  own_results (ros (cancel w)) = own_results (ros w).
Proof.
  unfold cancel, as_preempt_cb. simpl.
  destruct (current_playing_process (afp w)) as [h|]; [|reflexivity].
  destruct (kill h (os w)) as [[r h1] o1]. destruct r; simpl; [|reflexivity].
  rewrite own_results_snoc. simpl. apply app_nil_r.
Qed.

Lemma own_results_step (s : session) :
  (at_pc s <> AsReturn -> own_results (ros (world s)) = []) ->
  (length (own_results (ros (world s))) <= 1)%nat ->
  (at_pc (as_cb_step s) <> AsReturn ->
   own_results (ros (world (as_cb_step s))) = []) /\
  (length (own_results (ros (world (as_cb_step s)))) <= 1)%nat.
Proof.
  destruct s as [w p g t0 t1 sp]. unfold as_cb_step. simpl. intros H L.
  destruct p; simpl in *;
    try (assert (E : own_results (ros w) = []) by (apply H; discriminate)).
  - rewrite E. simpl. split; [reflexivity|lia].
  - rewrite E. simpl. split; [reflexivity|lia].
  - destruct sp as [h|]; simpl.
    + unfold play_bind, own_results in *. simpl. rewrite E. simpl.
      split; [reflexivity|lia].
    + rewrite E. simpl. split; [reflexivity|lia].
  - destruct (is_shutdown (os w)); simpl; [rewrite E; simpl; split; [reflexivity|lia]|].
    destruct (current_playing_process (afp w)) as [h|]; simpl;
      [|rewrite E; simpl; split; [reflexivity|lia]].
    destruct (is_done h (os w)) as [[d h1] o1].
    destruct d; simpl; rewrite E; simpl; split; try reflexivity; lia.
  - split; [intros _; exact E|]. unfold own_results in *. simpl. rewrite E. simpl. lia.
  - rewrite E. simpl. split; [reflexivity|lia].
  - rewrite E. simpl. split; [reflexivity|lia].
  - destruct (current_playing_process (afp w)) as [h|]; simpl;
      [|rewrite E; simpl; split; [reflexivity|lia]].
    destruct (is_succeeded h (os w)) as [[d h1] o1].
    destruct d; simpl; rewrite E; simpl; split; try reflexivity; lia.
  - rewrite own_results_snoc, E. simpl. split; [congruence|lia].
  - destruct (preempt_requested (ros w)); simpl; rewrite E; simpl;
      split; try reflexivity; lia.
  - destruct (current_playing_process (afp w)); simpl;
      rewrite ?own_results_snoc, E; simpl; split; try congruence; lia.
  - split; [exact H|exact L].
Qed.

(** X15: along every run of a session [as_cb] reports at most one result
    of its own (a success or a failure), and none before it returns. *)
Theorem as_cb_reports_once (g : string) (w0 : World) (es : list event) :
  let s := run es (session_start g w0) in
  (length (own_results (ros (world s))) <= 1)%nat /\
  (at_pc s <> AsReturn -> own_results (ros (world s)) = []).
Proof.
  assert (G : forall es s,
            (at_pc s <> AsReturn -> own_results (ros (world s)) = []) ->
            (length (own_results (ros (world s))) <= 1)%nat ->
            (length (own_results (ros (world (run es s)))) <= 1)%nat /\
            (at_pc (run es s) <> AsReturn ->
             own_results (ros (world (run es s))) = [])).
  { clear. induction es as [|e es IH]; intros s H L; [split; assumption|].
    change (run (e :: es) s) with (run es (exec s e)).
    destruct e as [|t|q c| |].
    - change (exec s Step) with (as_cb_step s).
      destruct (own_results_step s H L) as [H' L']. apply IH; assumption.
    - apply IH; destruct s; assumption.
    - apply IH; destruct s; assumption.
    - apply IH; destruct s; assumption.
    - apply IH; destruct s as [w p g t0 t1 sp]; simpl in *;
        rewrite cancel_own_results; assumption. }
  intros s. apply G; simpl; [reflexivity|lia].
Qed.


Lemma loop_over_set_ros (r : Ros) (w : World) :
  loop_over w -> loop_over (set_ros r w).
Proof. intros H. exact H. Qed.






(** X17: when the child has ended on its own with status [c] and no cancel
    was requested, [as_cb] leaves its loop, reaps the child and reports
    one result: a success carrying [final_time] when [c] is 0, otherwise a
    failure whose reason is the captured stderr and stdout. *)
Theorem exit_code_decides_result (s : session) (h : ShellCmd) (c : Z) :
  at_pc s = AsLoop -> is_shutdown (os (world s)) = false ->
  preempt_requested (ros (world s)) = false ->
  current_playing_process (afp (world s)) = Some h -> retcode h = None ->
  procs (os (world s)) !! process h = Some (Exited c) ->
  let s' := run [Step; Step; Step; Step; Step] s in
  at_pc s' = AsReturn /\
  results (ros (world s'))
  = (results (ros (world s))
     ++ [if c =? 0 then Succeeded (final_time s')
         else Aborted ("stderr: " ++ stderr_of (os (world s)) (process h)
                       ++ newline ++ "stdout: "
                       ++ stdout_of (os (world s)) (process h))])%list /\
  final_time s' = clock (os (world s)) /\
  current_playing_process (afp (world s')) = Some (set_retcode (Some c) h) /\
  procs (os (world s')) !! process h = Some (Reaped c).
Proof.
  destruct s as [w p g t0 t1 sp]. simpl world. simpl at_pc. intros -> Sd Pr Hc R P.
  assert (Lt : (process h < length (procs (os w)))%nat)
    by (eapply lookup_lt_Some; exact P).
  assert (S1 : as_cb_step (mkSession w AsLoop g t0 t1 sp)
          = mkSession (set_afp (set_current (Some (set_retcode (Some c) h)) (afp w))
                         (set_os (set_procs (<[process h := Reaped c]>) (os w)) w))
                      AsFinal g t0 t1 sp).
  { unfold as_cb_step. cbn [at_pc world]. rewrite Sd, Hc.
    unfold is_done, get_retcode, poll. rewrite R, P. reflexivity. }
  set (w1 := set_afp (set_current (Some (set_retcode (Some c) h)) (afp w))
                         (set_os (set_procs (<[process h := Reaped c]>) (os w)) w)) in *.
  assert (S3 : as_cb_step (mkSession w1 AsCheckSucceeded g t0 (clock (os w)) sp)
          = mkSession w1 (if c =? 0 then AsSetSucceeded else AsCheckPreempt)
                      g t0 (clock (os w)) sp).
  { unfold as_cb_step. cbn [at_pc world]. unfold w1 at 1. cbn [afp set_afp current_playing_process set_current].
    unfold is_succeeded, get_retcode. cbn [retcode set_retcode].
    destruct (c =? 0); destruct w as [o r a n]; destruct a; reflexivity. }
  unfold run. cbn [fold_left exec].
  rewrite S1.
  change (as_cb_step (mkSession w1 AsFinal g t0 t1 sp))
    with (mkSession w1 AsCheckSucceeded g t0 (clock (os w)) sp).
  rewrite S3.
  destruct (c =? 0) eqn:E.
  - cbn [as_cb_step at_pc world goto final_time filepath initial_time spawned].
    cbn [ros set_ros results set_result afp current_playing_process os procs].
    unfold w1. cbn [ros set_ros set_afp set_os results afp os current_playing_process set_current procs set_procs].
    rewrite list_lookup_insert_eq by exact Lt. repeat split; reflexivity.
  - cbn [as_cb_step at_pc world goto final_time filepath initial_time spawned].
    assert (Pr1 : preempt_requested (ros w1) = false) by exact Pr.
    rewrite Pr1.
    cbn [as_cb_step at_pc world goto final_time filepath initial_time spawned].
    assert (C1 : current_playing_process (afp w1) = Some (set_retcode (Some c) h)) by reflexivity.
    rewrite C1.
    cbn [as_cb_step at_pc world goto final_time filepath initial_time spawned].
    unfold w1, abort_reason, get_stderr, get_stdout.
    cbn [ros set_ros set_afp set_os results set_result afp os current_playing_process set_current procs set_procs stderr_of stdout_of process set_retcode].
    rewrite list_lookup_insert_eq by exact Lt. repeat split; reflexivity.
Qed.

Lemma exit_code_decides_result_witness :
  let s := run [Step; Step; Step; ProcExit 0 2] (session_start "a.wav" world0) in
  let s' := run [Step; Step; Step; Step; Step] s in
  at_pc s' = AsReturn /\
  results (ros (world s')) = [Aborted ("stderr: " ++ newline ++ "stdout: ")].
Proof.
  destruct (exit_code_decides_result
              (run [Step; Step; Step; ProcExit 0 2] (session_start "a.wav" world0))
              (mkShellCmd "play  'a.wav'" None 0) 2
              eq_refl eq_refl eq_refl eq_refl eq_refl eq_refl) as (H1 & H2 & _).
  split; [exact H1|exact H2].
Defined.



Lemma get_retcode_keeps_running (h : ShellCmd) (o : OS) (p : nat) :
  procs o !! p = Some Running ->
  procs (snd (get_retcode h o)) !! p = Some Running.
Proof.
  intros P. unfold get_retcode. destruct (retcode h); [exact P|].
  unfold poll. destruct (procs o !! process h) as [[|c|c]|] eqn:Q; simpl; try exact P.
  rewrite list_lookup_insert_ne; [exact P|]. intros E. rewrite E in Q. congruence.
Qed.

Lemma step_keeps_running (s : session) (p : nat) :
  at_pc s <> AsBind ->
  procs (os (world s)) !! p = Some Running ->
  procs (os (world (as_cb_step s))) !! p = Some Running.
Proof.
  destruct s as [w pc0 g t0 t1 sp]. unfold as_cb_step. simpl. intros Hb P.
  destruct pc0; simpl; try exact P; try congruence.
  - rewrite lookup_app_l; [exact P|]. eapply lookup_lt_Some; exact P.
  - destruct (is_shutdown (os w)); [exact P|].
    destruct (current_playing_process (afp w)) as [h|]; [|exact P].
    pose proof (get_retcode_keeps_running h (os w) p P) as G.
    unfold is_done. destruct (get_retcode h (os w)) as [[r h1] o1].
    destruct r; exact G.
  - destruct (current_playing_process (afp w)) as [h|]; [|exact P].
    pose proof (get_retcode_keeps_running h (os w) p P) as G.
    unfold is_succeeded. destruct (get_retcode h (os w)) as [[r h1] o1].
    destruct r as [c|]; [destruct (c =? 0)|]; exact G.
  - destruct (preempt_requested (ros w)); exact P.
  - destruct (current_playing_process (afp w)); exact P.
Qed.

Lemma step_stays_supervising (s : session) :
  (playing (at_pc s) = true \/ at_pc s = AsReturn) ->
  playing (at_pc (as_cb_step s)) = true \/ at_pc (as_cb_step s) = AsReturn.
Proof.
  destruct s as [w pc0 g t0 t1 sp]. unfold as_cb_step. simpl. intros Hp.
  destruct pc0; simpl in *; try (destruct Hp as [Hp|Hp]; discriminate Hp); auto.
  - destruct (is_shutdown (os w)); [auto|].
    destruct (current_playing_process (afp w)) as [h|]; [|auto].
    destruct (is_done h (os w)) as [[d h1] o1]. destruct d; auto.
  - destruct (current_playing_process (afp w)) as [h|]; [|auto].
    destruct (is_succeeded h (os w)) as [[d h1] o1]. destruct d; auto.
  - destruct (preempt_requested (ros w)); auto.
  - destruct (current_playing_process (afp w)); auto.
Qed.

(** X19: from the loop on, the statements of [as_cb] never end a child: a
    child that is alive stays alive, also when [as_cb] returns because of
    a shutdown. *)
Theorem as_cb_never_ends_the_player (s : session) (n : nat) (p : nat) :
  (playing (at_pc s) = true \/ at_pc s = AsReturn) ->
  procs (os (world s)) !! p = Some Running ->
  procs (os (world (run (repeat Step n) s))) !! p = Some Running.
Proof.
  revert s. induction n as [|n IH]; intros s Hp P; [exact P|].
  change (run (repeat Step (S n)) s) with (run (repeat Step n) (as_cb_step s)).
  apply IH; [apply step_stays_supervising, Hp|].
  apply step_keeps_running; [|exact P].
  intros E. rewrite E in Hp. destruct Hp; discriminate.
Qed.

Lemma as_cb_never_ends_the_player_witness :
  let s := run [Step; Step; Step; Shutdown] (session_start "a.wav" world0) in
  at_pc (run (repeat Step 7) s) = AsReturn /\
  procs (os (world (run (repeat Step 7) s))) !! 0%nat = Some Running.
Proof.
  split; [reflexivity|].
  apply (as_cb_never_ends_the_player
           (run [Step; Step; Step; Shutdown] (session_start "a.wav" world0)) 7 0).
  - left. reflexivity.
  - reflexivity.
Defined.
